(** * AssetManager: queue and completion tracking of an image preloader

    A shallow embedding of [src/AssetManager.js] and the properties of its
    queue / completion-tracking state machine.

    Modelling decisions, all taken from the source:

    - The instance ([this]) is a record of its own properties.  A property
      that was never assigned reads [undefined]; the record keeps that case
      for every property the methods read, because the constructor assigns
      to the bare identifiers [successCount], [errorCount], [cache] and
      [downloadQueue] and not to [this.successCount] and so on.
    - Method bodies run in a state-and-exception monad over the [World]:
      the instance, the [Image] objects created so far together with the
      listeners attached to them, and the observable effects (console
      output and invocations of the completion callback).
    - [load] and [error] events are delivered by the browser, one event per
      image, in any order; they are the [Settle] operations of a run.
    - The counters are JavaScript numbers.  They count settle events, so
      they stay far below 2^53 and integer arithmetic on them is exact;
      they are modelled by [Z].
    - The cache is a plain object used as a map from paths to images.  Its
      keys are modelled by a finite map; a name that is not a key is looked
      up in [Object.prototype], which the cache inherits from, so
      [this.cache["toString"]] is not [undefined].  Assigning under
      [__proto__] replaces the prototype of the cache instead of adding a
      key; the model keeps the image under that name, which is what
      [this.cache["__proto__"]] then reads, and does not follow what the
      cache inherits from the image.
    - A global binding the constructor assigns to may be missing
      (ReferenceError), constant (TypeError) or writable.
    - A callback is an opaque function value.  Calling it is recorded as an
      effect; it is called in tail position everywhere, so whatever it does
      to the manager is a later operation of the run. *)

From stdpp Require Import base option list gmap strings.
From Stdlib Require Import ZArith Lia.

Local Open Scope Z_scope.

(** ** Values *)

(** An [Image] object is identified by its creation index. *)
Abbreviation Image := nat (only parsing).

(** A function value passed to [downloadAll]. *)
Abbreviation Callback := nat (only parsing).

Inductive value :=
| VUndefined
| VNull
| VBool (b : bool)
| VImage (img : Image)
| VInherited (name : string)  (* the member [name] of [Object.prototype] *)
| VReturnOf (f : Callback).   (* what a call of [f] returned *)

(** A property holding a number, or nothing yet. *)
Inductive number :=
| Unset                        (* undefined *)
| NaN
| Num (z : Z).

(** ToNumber, then [+ 1]: the postfix [++] on a property. *)
Definition increment (n : number) : number :=
  match n with
  | Num z => Num (z + 1)
  | _ => NaN
  end.

(** [a + b] on two number-or-undefined operands. *)
Definition plus (a b : number) : number :=
  match a, b with
  | Num x, Num y => Num (x + y)
  | _, _ => NaN
  end.

(** [len === n] for an array length [len]. *)
Definition length_strict_equal (len : nat) (n : number) : bool :=
  match n with
  | Num z => Z.of_nat len =? z
  | _ => false
  end.

(** ** The instance *)

Record AssetManagerOptions := Options { debugging_option : bool }.

Record AssetManager := Instance {
  successCount : number;
  errorCount : number;
  cache : option (gmap string Image);
  downloadQueue : option (list string);
  debugging : option bool;               (* [this.debugging] *)
  options : AssetManagerOptions          (* [this.options] *)
}.

Definition set_successCount (n : number) (a : AssetManager) : AssetManager :=
  Instance n (errorCount a) (cache a) (downloadQueue a) (debugging a) (options a).
Definition set_errorCount (n : number) (a : AssetManager) : AssetManager :=
  Instance (successCount a) n (cache a) (downloadQueue a) (debugging a) (options a).
Definition set_cache (c : gmap string Image) (a : AssetManager) : AssetManager :=
  Instance (successCount a) (errorCount a) (Some c) (downloadQueue a) (debugging a) (options a).
Definition set_downloadQueue (q : list string) (a : AssetManager) : AssetManager :=
  Instance (successCount a) (errorCount a) (cache a) (Some q) (debugging a) (options a).
Definition set_options (o : AssetManagerOptions) (a : AssetManager) : AssetManager :=
  Instance (successCount a) (errorCount a) (cache a) (downloadQueue a) (debugging a) o.

(** ** The world around the instance *)

Inductive settlement := Pending | Loaded | Failed.

#[global] Instance settlement_eq_dec : EqDecision settlement.
Proof. solve_decision. Defined.

(** One [Image] made by an iteration of the loop in [downloadAll]: its
    [src], the [callback] its two listeners close over, and what the
    browser has reported for it so far. *)
Record fetch := Fetch {
  src : string;
  listener : Callback;
  status : settlement
}.

Inductive effect :=
| Log (message : string) (val : option value)     (* console.log *)
| Call (f : Callback) (args : list value).        (* f(args) *)

Record World := MkWorld {
  this : AssetManager;
  images : list fetch;
  effects : list effect
}.

Definition with_this (f : AssetManager -> AssetManager) (w : World) : World :=
  MkWorld (f (this w)) (images w) (effects w).
Definition with_images (f : list fetch -> list fetch) (w : World) : World :=
  MkWorld (this w) (f (images w)) (effects w).
Definition emit (e : effect) (w : World) : World :=
  MkWorld (this w) (images w) (effects w ++ [e]).

(** ** Method bodies: state and exceptions *)

Inductive exn := ReferenceError | TypeError.

Inductive completion (A : Type) :=
| Normal (a : A)
| Throw (e : exn).
Arguments Normal {A} a.
Arguments Throw {A} e.

(** A computation over a state [S] that returns or throws. *)
Definition ST (S A : Type) : Type := S -> S * completion A.

Definition ret {S A} (a : A) : ST S A := fun s => (s, Normal a).
Definition throw {S A} (e : exn) : ST S A := fun s => (s, Throw e).
Definition bind {S A B} (m : ST S A) (k : A -> ST S B) : ST S B :=
  fun s =>
    match m s with
    | (s', Normal a) => k a s'
    | (s', Throw e) => (s', Throw e)
    end.
Definition update {S} (f : S -> S) : ST S unit := fun s => (f s, Normal tt).
Definition read {S A} (f : S -> A) : ST S A := fun s => (s, Normal (f s)).

Declare Scope js_scope.
Delimit Scope js_scope with js.
Notation "'let*' x ':=' m 'in' k" := (bind m (fun x => k))
  (at level 10, x name, m at level 100, k at level 200) : js_scope.
Notation "m ';;;' k" := (bind m (fun _ => k))
  (at level 100, k at level 200, right associativity) : js_scope.
Local Open Scope js_scope.

(** Method bodies run over the [World]. *)
Definition M (A : Type) : Type := ST World A.

(** Reading a property of [undefined] throws a TypeError. *)
Definition defined {A} (f : AssetManager -> option A) : M A :=
  fun w =>
    match f (this w) with
    | Some a => ret a w
    | None => throw TypeError w
    end.

(** [for (const x of xs) body] *)
Fixpoint for_of {A} (xs : list A) (body : A -> M unit) : M unit :=
  match xs with
  | [] => ret tt
  | x :: xs' => body x ;;; for_of xs' body
  end.

(** ** The methods *)

Definition truthy (b : option bool) : bool :=
  match b with
  | Some true => true
  | _ => false
  end.

(** [debug(message = '', value)], lines 44-52. *)
Definition debug (message : string) (val : option value) : M unit :=
  let* d := read (fun w => debugging (this w)) in
  if negb (truthy d) then ret tt
  else update (emit (Log message val)).

(** [queueDownload(path)], lines 58-61. *)
Definition queueDownload (path : string) : M value :=
  let* q := defined downloadQueue in
  update (with_this (set_downloadQueue (q ++ [path]))) ;;;
  debug ("Queued " +:+ path +:+ " for download") None ;;;
  ret VUndefined.

(** [isDone()], lines 100-102. *)
Definition isDone : M bool :=
  let* q := defined downloadQueue in
  let* s := read (fun w => successCount (this w)) in
  let* e := read (fun w => errorCount (this w)) in
  ret (length_strict_equal (length q) (plus s e)).

(** [callback()] *)
Definition invoke (callback : Callback) : M value :=
  update (emit (Call callback [])) ;;;
  ret (VReturnOf callback).

(** The listener for ['load'], lines 75-81. *)
Definition on_load (downloadPath : string) (callback : Callback) : M unit :=
  debug ("Loaded " +:+ downloadPath) None ;;;
  update (with_this (fun a => set_successCount (increment (successCount a)) a)) ;;;
  let* done := isDone in
  if done then invoke callback ;;; ret tt else ret tt.

(** The listener for ['error'], lines 83-89. *)
Definition on_error (downloadPath : string) (callback : Callback) : M unit :=
  debug ("Error loading " +:+ downloadPath) None ;;;
  update (with_this (fun a => set_errorCount (increment (errorCount a)) a)) ;;;
  let* done := isDone in
  if done then invoke callback ;;; ret tt else ret tt.

(** [new Image()], the two [addEventListener] calls and [img.src = ...],
    lines 73-91: from here on the browser may report on the image. *)
Definition new_Image (downloadPath : string) (callback : Callback) : M Image :=
  let* img := read (fun w => length (images w)) in
  update (with_images (fun l => l ++ [Fetch downloadPath callback Pending])) ;;;
  ret img.

(** [this.cache[downloadPath] = img], line 92. *)
Definition cache_store (downloadPath : string) (img : Image) : M unit :=
  let* c := defined cache in
  update (with_this (set_cache (<[downloadPath := img]> c))).

(** [downloadAll(callback)], lines 67-94. *)
Definition downloadAll (callback : Callback) : M value :=
  let* q := defined downloadQueue in
  if Nat.eqb (length q) 0 then invoke callback
  else
    for_of q (fun downloadPath =>
      let* img := new_Image downloadPath callback in
      cache_store downloadPath img) ;;;
    ret VUndefined.

(** The names every plain object inherits from [Object.prototype]. *)
Definition Object_prototype : list string :=
  ["constructor"; "__defineGetter__"; "__defineSetter__"; "hasOwnProperty";
   "__lookupGetter__"; "__lookupSetter__"; "isPrototypeOf";
   "propertyIsEnumerable"; "toString"; "valueOf"; "__proto__";
   "toLocaleString"].

Definition inherited (name : string) : bool :=
  bool_decide (name ∈ Object_prototype).

(** [getAsset(path)], lines 109-116.  [this.cache[path]] is the image stored
    under [path], else what the cache inherits under that name, else
    [undefined]. *)
Definition getAsset (path : string) : M value :=
  let* c := defined cache in
  match c !! path with
  | Some img => ret (VImage img)
  | None =>
      if inherited path then ret (VInherited path)
      else
        debug ("Asset " +:+ path +:+ " not found in cache") None ;;;
        ret VNull
  end.

(** ** The constructor *)

(** The global bindings the constructor writes to.  A class body is strict
    code: assigning to an identifier that is not bound throws a
    ReferenceError, and assigning to a constant throws a TypeError and
    writes nothing. *)
Inductive global_value :=
| GNumber (z : Z)
| GObject (o : gmap string Image)
| GArray (l : list string)
| GOther.

Record binding := Binding {
  writable : bool;
  content : global_value
}.

Definition assign (x : string) (v : global_value) : ST (gmap string binding) unit :=
  fun g =>
    match g !! x with
    | Some (Binding true _) => update (insert x (Binding true v)) g
    | Some (Binding false _) => throw TypeError g
    | None => throw ReferenceError g
    end.

(** [constructor(options = { debugging: false })], lines 7-37.  The new
    object gets one property, [options]. *)
Definition constructor (arg : option AssetManagerOptions)
  : ST (gmap string binding) AssetManager :=
  let options := default (Options false) arg in
  assign "successCount" (GNumber 0) ;;;
  assign "errorCount" (GNumber 0) ;;;
  assign "cache" (GObject ∅) ;;;
  assign "downloadQueue" (GArray []) ;;;
  ret (Instance Unset Unset None None None options).

(** The instance that the property comments of lines 8-30 describe and that
    every method presupposes: both counters 0, an empty cache and an empty
    queue.  [this.debugging] is whatever the caller has put there. *)
Definition initialised (d : option bool) (o : AssetManagerOptions) : AssetManager :=
  Instance (Num 0) (Num 0) (Some ∅) (Some []) d o.

Definition start (a : AssetManager) : World := MkWorld a [] [].

(** ** Events and runs *)

Inductive event := load | error.

Definition settled (ev : event) : settlement :=
  match ev with
  | load => Loaded
  | error => Failed
  end.

(** The browser reports on image [img]: it does so once per image, so only
    for an image that is still pending; the matching listener then runs. *)
Definition dispatch (img : Image) (ev : event) (w : World)
  : option (World * completion unit) :=
  match images w !! img with
  | Some (Fetch path callback Pending) =>
      let w' := with_images (<[img := Fetch path callback (settled ev)]>) w in
      Some (match ev with
            | load => on_load path callback w'
            | error => on_error path callback w'
            end)
  | _ => None
  end.

Inductive op :=
| QueueDownload (path : string)
| DownloadAll (callback : Callback)
| IsDone
| GetAsset (path : string)
| Settle (img : Image) (ev : event).

Definition returning {A} (f : A -> value) (r : World * completion A)
  : World * completion value :=
  match r with
  | (w, Normal a) => (w, Normal (f a))
  | (w, Throw e) => (w, Throw e)
  end.

(** One operation of a run.  [None]: the browser cannot deliver that event. *)
Definition exec (o : op) (w : World) : option (World * completion value) :=
  match o with
  | QueueDownload path => Some (queueDownload path w)
  | DownloadAll callback => Some (downloadAll callback w)
  | IsDone => Some (returning VBool (isDone w))
  | GetAsset path => Some (getAsset path w)
  | Settle img ev => returning (fun _ => VUndefined) <$> dispatch img ev w
  end.

(** A run: the final world and what each operation returned or threw. *)
Fixpoint run (ops : list op) (w : World)
  : option (World * list (completion value)) :=
  match ops with
  | [] => Some (w, [])
  | o :: ops' =>
      match exec o w with
      | None => None
      | Some (w', r) =>
          match run ops' w' with
          | None => None
          | Some (w'', rs) => Some (w'', r :: rs)
          end
      end
  end.

(** ** Notions used in the statements *)

(** The completion callbacks called so far, with their arguments. *)
Fixpoint calls (l : list effect) : list (Callback * list value) :=
  match l with
  | [] => []
  | Call f args :: l' => (f, args) :: calls l'
  | Log _ _ :: l' => calls l'
  end.

(** Both counters, when they hold numbers. *)
Definition counters (w : World) : option (Z * Z) :=
  match successCount (this w), errorCount (this w) with
  | Num s, Num e => Some (s, e)
  | _, _ => None
  end.

(** How many times [downloadAll] is called in a run. *)
Fixpoint downloads (ops : list op) : nat :=
  match ops with
  | [] => O
  | DownloadAll _ :: ops' => S (downloads ops')
  | _ :: ops' => downloads ops'
  end.

(** The world after [debug(message)]. *)
Definition logged (message : string) (w : World) : World :=
  if truthy (debugging (this w)) then emit (Log message None) w else w.

(** How many images the browser has reported as [st]. *)
Fixpoint tally (st : settlement) (l : list fetch) : Z :=
  match l with
  | [] => 0
  | f :: l' =>
      (match status f, st with
       | Loaded, Loaded | Failed, Failed | Pending, Pending => 1
       | _, _ => 0
       end) + tally st l'
  end.

Fixpoint store_all (q : list string) (base : nat) (c : gmap string Image)
  : gmap string Image :=
  match q with
  | [] => c
  | p :: q' => store_all q' (S base) (<[p := base]> c)
  end.

Fixpoint last_index (path : string) (l : list string) (base : nat) : option nat :=
  match l with
  | [] => None
  | p :: l' =>
      match last_index path l' (S base) with
      | Some i => Some i
      | None => if decide (p = path) then Some base else None
      end
  end.

(** The world after one more [load] or [error] has been counted. *)
Definition counted (ev : event) (w : World) : World :=
  match ev with
  | load => with_this (fun a => set_successCount (increment (successCount a)) a) w
  | error => with_this (fun a => set_errorCount (increment (errorCount a)) a) w
  end.

(** A listener: trace, count, then call back when the count is complete. *)
Definition handled (ev : event) (message : string) (q : list string)
    (callback : Callback) (w : World) : World :=
  let w1 := counted ev (logged message w) in
  if length_strict_equal (length q)
       (plus (successCount (this w1)) (errorCount (this w1)))
  then emit (Call callback []) w1 else w1.

Definition message_of (ev : event) (path : string) : string :=
  match ev with
  | load => "Loaded " +:+ path
  | error => "Error loading " +:+ path
  end.

(** What holds of every world a run reaches from an [initialised] instance: the
    counters are the numbers of images reported loaded and failed, the
    cache holds for each path the image created last for it, and images
    exist only for queued paths. *)
Definition consistent (d : option bool) (o : AssetManagerOptions) (w : World) : Prop :=
  exists (q : list string) (c : gmap string Image),
    this w = Instance (Num (tally Loaded (images w))) (Num (tally Failed (images w)))
               (Some c) (Some q) d o
    /\ (forall p, c !! p = last_index p (src <$> images w) 0)
    /\ (forall p, p ∈ src <$> images w -> p ∈ q).


(** The paths queued by a run, in order. *)
Fixpoint queued (ops : list op) : list string :=
  match ops with
  | [] => []
  | QueueDownload path :: ops' => path :: queued ops'
  | _ :: ops' => queued ops'
  end.

(** The effects a method may add: a trace only when [this.debugging] is
    truthy, and calls of the callback without arguments. *)
Definition allowed (d : option bool) (e : effect) : Prop :=
  match e with
  | Log _ _ => truthy d = true
  | Call _ args => args = []
  end.

(** A computation that leaves [this.debugging] alone and only appends
    allowed effects. *)
Definition tame {A} (m : M A) : Prop :=
  forall w,
    debugging (this (m w).1) = debugging (this w)
    /\ exists l, effects (m w).1 = effects w ++ l
                /\ Forall (allowed (debugging (this w))) l.

(** [this.downloadQueue.length], 0 when there is no queue. *)
Definition queue_length (w : World) : nat :=
  match downloadQueue (this w) with
  | Some q => length q
  | None => O
  end.

(** How many of the events [evs] are [ev]. *)
Fixpoint occurrences (ev : event) (evs : list (Image * event)) : Z :=
  match evs with
  | [] => 0
  | (_, ev') :: evs' =>
      (match ev, ev' with
       | load, load | error, error => 1
       | _, _ => 0
       end) + occurrences ev evs'
  end.

(** A computation that neither reads nor writes [this.options]: it does
    the same in a world that differs in that property only. *)
Definition blind {A} (m : M A) : Prop :=
  forall o w,
    m (with_this (set_options o) w)
    = (with_this (set_options o) (m w).1, (m w).2).

(** The events delivered by a run, in order. *)
Fixpoint events (ops : list op) : list (Image * event) :=
  match ops with
  | [] => []
  | Settle img ev :: ops' => (img, ev) :: events ops'
  | _ :: ops' => events ops'
  end.

(** An operation by which the caller asks for something new. *)
Definition requests (x : op) : bool :=
  match x with
  | QueueDownload _ | DownloadAll _ => true
  | _ => false
  end.

(** The lines written to the console so far. *)
Fixpoint logs (l : list effect) : list string :=
  match l with
  | [] => []
  | Log message _ :: l' => message :: logs l'
  | Call _ _ :: l' => logs l'
  end.

(** What an operation traces when [this.debugging] is truthy. *)
Definition trace_of (x : op) (w : World) : list string :=
  match x with
  | QueueDownload path => ["Queued " +:+ path +:+ " for download"]
  | DownloadAll _ => []
  | IsDone => []
  | GetAsset path =>
      match cache (this w) with
      | Some c =>
          match c !! path with
          | Some _ => []
          | None =>
              if inherited path then []
              else ["Asset " +:+ path +:+ " not found in cache"]
          end
      | None => []
      end
  | Settle img ev =>
      match images w !! img with
      | Some f => [message_of ev (src f)]
      | None => []
      end
  end.

(** No callback has been called yet, or one has and no image is pending. *)
Definition quiet_or_finished (w : World) : Prop :=
  calls (effects w) = []
  \/ ((exists cb, calls (effects w) = [(cb, [])])
      /\ tally Pending (images w) = 0).

(** * Properties *)

(** The scenario of two queued paths, the first loading and the second
    failing: the callback is called once, after both events. *)
Example scenario_a_b :
  run [QueueDownload "a.png"; QueueDownload "b.png"; DownloadAll 7%nat;
       Settle 0%nat load; IsDone; Settle 1%nat error; IsDone;
       GetAsset "a.png"; GetAsset "c.png"]
      (start (initialised None (Options false)))
  = Some (MkWorld (Instance (Num 1) (Num 1)
                     (Some (<["b.png" := 1%nat]> (<["a.png" := 0%nat]> ∅)))
                     (Some ["a.png"; "b.png"]) None (Options false))
                  [Fetch "a.png" 7%nat Loaded; Fetch "b.png" 7%nat Failed]
                  [Call 7%nat []],
          [Normal VUndefined; Normal VUndefined; Normal VUndefined;
           Normal VUndefined; Normal (VBool false); Normal VUndefined;
           Normal (VBool true); Normal (VImage 0%nat); Normal VNull]).
Proof. vm_compute. reflexivity. Qed.

(** ** Effects and counting *)

Lemma calls_app (l1 l2 : list effect) : calls (l1 ++ l2) = calls l1 ++ calls l2.
Proof.
  induction l1 as [|[m v|f args] l1 IH]; simpl; [done | done |].
  by rewrite IH.
Qed.

Lemma debug_eq message w : debug message None w = (logged message w, Normal tt).
Proof.
  unfold debug, logged, bind, read, ret, update.
  by destruct (truthy (debugging (this w))).
Qed.

Lemma logged_this message w : this (logged message w) = this w.
Proof. unfold logged. by destruct (truthy _). Qed.

Lemma logged_images message w : images (logged message w) = images w.
Proof. unfold logged. by destruct (truthy _). Qed.

Lemma logged_calls message w : calls (effects (logged message w)) = calls (effects w).
Proof.
  unfold logged. destruct (truthy _); [|done].
  simpl. rewrite calls_app. simpl. by rewrite app_nil_r.
Qed.

Lemma tally_app st l1 l2 : tally st (l1 ++ l2) = tally st l1 + tally st l2.
Proof. induction l1 as [|f l1 IH]; simpl; lia. Qed.

Lemma tally_nonneg st l : 0 <= tally st l.
Proof. induction l as [|f l IH]; simpl; [lia|]. destruct (status f), st; lia. Qed.

Lemma tally_settled_le l :
  tally Loaded l + tally Failed l <= Z.of_nat (length l).
Proof. induction l as [|f l IH]; simpl length; simpl tally; [lia|]. destruct (status f); lia. Qed.

Lemma tally_issue st (q : list string) cb :
  st <> Pending -> tally st ((fun p => Fetch p cb Pending) <$> q) = 0.
Proof.
  intros Hst. induction q as [|p q IH]; [done|].
  rewrite fmap_cons. simpl tally. rewrite IH. by destruct st.
Qed.

Lemma tally_settle (l : list fetch) i p cb ev st :
  l !! i = Some (Fetch p cb Pending) -> st <> Pending ->
  tally st (<[i := Fetch p cb (settled ev)]> l)
  = tally st l + (if decide (settled ev = st) then 1 else 0).
Proof.
  revert i. induction l as [|f l IH]; intros i Hi Hst; [done|].
  destruct i as [|i]; simpl in *.
  - injection Hi as ->. simpl. destruct ev, st; simpl; try done; lia.
  - rewrite (IH i Hi Hst). lia.
Qed.

Lemma src_settle (l : list fetch) i p cb st st' :
  l !! i = Some (Fetch p cb st) ->
  src <$> <[i := Fetch p cb st']> l = src <$> l.
Proof.
  intros Hi. rewrite list_fmap_insert. simpl.
  apply list_insert_id. by rewrite list_lookup_fmap, Hi.
Qed.

(** ** The image stored under a path *)

Lemma last_index_app path l1 l2 base :
  last_index path (l1 ++ l2) base
  = match last_index path l2 (base + length l1)%nat with
    | Some i => Some i
    | None => last_index path l1 base
    end.
Proof.
  revert base. induction l1 as [|p l1 IH]; intros base; simpl.
  - rewrite Nat.add_0_r. by destruct (last_index path l2 base).
  - rewrite IH. replace (S base + length l1)%nat with (base + S (length l1))%nat by lia.
    destruct (last_index path l2 (base + S (length l1))); [done|].
    by destruct (last_index path l1 (S base)).
Qed.

Lemma last_index_None path l base :
  last_index path l base = None <-> path ∉ l.
Proof.
  revert base. induction l as [|p l IH]; intros base; simpl.
  - split; [intros _|done]. apply not_elem_of_nil.
  - rewrite not_elem_of_cons. specialize (IH (S base)).
    destruct (last_index path l (S base)).
    + split; [done|]. intros [_ Hl]. by apply IH in Hl.
    + destruct (decide (p = path)) as [->|Hne].
      * split; [done|]. by intros [? _].
      * split; [|done]. intros _. split; [done|]. by apply IH.
Qed.

Lemma last_index_Some path l base i :
  last_index path l base = Some i ->
  (base <= i)%nat /\ l !! (i - base)%nat = Some path
  /\ forall j, (i - base < j)%nat -> l !! j <> Some path.
Proof.
  revert base i. induction l as [|p l IH]; intros base i; simpl; [done|].
  destruct (last_index path l (S base)) as [k|] eqn:Hk.
  - intros [= ->]. destruct (IH _ _ Hk) as (Hle & Hat & Hlast).
    split; [lia|]. replace (i - base)%nat with (S (i - S base)) by lia.
    split; [done|]. intros [|j] Hj; [lia|]. simpl. apply Hlast. lia.
  - destruct (decide (p = path)) as [->|]; [|done]. intros [= ->].
    split; [lia|]. rewrite Nat.sub_diag. split; [done|].
    intros [|j] Hj; [lia|]. simpl. intros Hin.
    apply last_index_None in Hk. apply Hk. by eapply list_elem_of_lookup_2.
Qed.

Lemma store_all_lookup q base c path :
  store_all q base c !! path
  = match last_index path q base with
    | Some i => Some i
    | None => c !! path
    end.
Proof.
  revert base c. induction q as [|p q IH]; intros base c; simpl; [done|].
  rewrite IH. destruct (last_index path q (S base)); [done|].
  destruct (decide (p = path)) as [->|Hne].
  - by rewrite lookup_insert_eq.
  - by rewrite lookup_insert_ne.
Qed.

(** ** What each method does to a world whose properties are set *)

Ltac unfold_js :=
  unfold queueDownload, isDone, on_load, on_error, invoke, new_Image,
    cache_store, getAsset, downloadAll, defined, bind, read, update, ret, throw.

Lemma defined_Some {A} (f : AssetManager -> option A) w a :
  f (this w) = Some a -> defined f w = (w, Normal a).
Proof. intros Hf. unfold defined. by rewrite Hf. Qed.

Lemma defined_None {A} (f : AssetManager -> option A) w :
  f (this w) = None -> defined f w = (w, Throw TypeError).
Proof. intros Hf. unfold defined. by rewrite Hf. Qed.

Lemma queueDownload_eq w q path :
  downloadQueue (this w) = Some q ->
  queueDownload path w
  = (logged ("Queued " +:+ path +:+ " for download")
       (with_this (set_downloadQueue (q ++ [path])) w), Normal VUndefined).
Proof. intros Hq. unfold_js. rewrite Hq. by rewrite debug_eq. Qed.

Lemma isDone_eq w q :
  downloadQueue (this w) = Some q ->
  isDone w = (w, Normal (length_strict_equal (length q)
                           (plus (successCount (this w)) (errorCount (this w))))).
Proof. intros Hq. unfold_js. by rewrite Hq. Qed.

Lemma isDone_undefined w :
  downloadQueue (this w) = None -> isDone w = (w, Throw TypeError).
Proof. intros Hq. unfold_js. by rewrite Hq. Qed.

Lemma isDone_pure w : (isDone w).1 = w.
Proof.
  destruct (downloadQueue (this w)) as [q|] eqn:Hq.
  - by rewrite (isDone_eq _ _ Hq).
  - by rewrite (isDone_undefined _ Hq).
Qed.

Lemma on_load_eq w q path callback :
  downloadQueue (this w) = Some q ->
  on_load path callback w
  = (handled load ("Loaded " +:+ path) q callback w, Normal tt).
Proof.
  intros Hq. unfold on_load, bind at 1. rewrite debug_eq.
  unfold bind at 1, update. unfold bind at 1.
  rewrite (isDone_eq _ q); [|by simpl; rewrite logged_this].
  unfold handled, counted, invoke, bind, update, ret.
  by destruct (length_strict_equal _ _).
Qed.

Lemma on_error_eq w q path callback :
  downloadQueue (this w) = Some q ->
  on_error path callback w
  = (handled error ("Error loading " +:+ path) q callback w, Normal tt).
Proof.
  intros Hq. unfold on_error, bind at 1. rewrite debug_eq.
  unfold bind at 1, update. unfold bind at 1.
  rewrite (isDone_eq _ q); [|by simpl; rewrite logged_this].
  unfold handled, counted, invoke, bind, update, ret.
  by destruct (length_strict_equal _ _).
Qed.

Lemma dispatch_eq w q img ev path callback :
  downloadQueue (this w) = Some q ->
  images w !! img = Some (Fetch path callback Pending) ->
  dispatch img ev w
  = Some (handled ev (message_of ev path) q callback
            (with_images (<[img := Fetch path callback (settled ev)]>) w),
          Normal tt).
Proof.
  intros Hq Hi. unfold dispatch. rewrite Hi.
  destruct ev; simpl; [by rewrite (on_load_eq _ q)|by rewrite (on_error_eq _ q)].
Qed.

Lemma for_of_issue (q : list string) callback w c :
  cache (this w) = Some c ->
  for_of q (fun downloadPath =>
      let* img := new_Image downloadPath callback in
      cache_store downloadPath img) w
  = (MkWorld (set_cache (store_all q (length (images w)) c) (this w))
       (images w ++ ((fun p => Fetch p callback Pending) <$> q))
       (effects w), Normal tt).
Proof.
  revert w c. induction q as [|p q IH]; intros w c Hc.
  - simpl. rewrite app_nil_r. unfold ret.
    destruct w as [[? ? ? ? ? ?] ? ?]; simpl in *. by subst.
  - simpl for_of. unfold bind at 1. unfold new_Image, cache_store.
    unfold defined, bind, read, update, ret, throw; simpl. rewrite Hc.
    rewrite (IH _ (<[p := length (images w)]> c)); [|done]. simpl.
    rewrite length_app; simpl. rewrite Nat.add_1_r.
    by rewrite <- app_assoc.
Qed.

Lemma downloadAll_empty w callback :
  downloadQueue (this w) = Some [] ->
  downloadAll callback w
  = (emit (Call callback []) w, Normal (VReturnOf callback)).
Proof. intros Hq. unfold_js. by rewrite Hq. Qed.

Lemma downloadAll_issue w q c callback :
  downloadQueue (this w) = Some q -> q <> [] -> cache (this w) = Some c ->
  downloadAll callback w
  = (MkWorld (set_cache (store_all q (length (images w)) c) (this w))
       (images w ++ ((fun p => Fetch p callback Pending) <$> q))
       (effects w), Normal VUndefined).
Proof.
  intros Hq Hne Hc. unfold downloadAll. unfold bind at 1.
  rewrite (defined_Some _ _ _ Hq).
  destruct q as [|p q]; [done|].
  change (length (p :: q) =? 0)%nat with false. cbv iota.
  unfold bind at 1. by rewrite (for_of_issue _ _ _ c).
Qed.

Lemma getAsset_eq w c path :
  cache (this w) = Some c ->
  getAsset path w
  = match c !! path with
    | Some img => (w, Normal (VImage img))
    | None =>
        if inherited path then (w, Normal (VInherited path))
        else (logged ("Asset " +:+ path +:+ " not found in cache") w, Normal VNull)
    end.
Proof.
  intros Hc. unfold getAsset. unfold bind at 1. rewrite (defined_Some _ _ _ Hc).
  destruct (c !! path); [done|]. destruct (inherited path); [done|].
  unfold bind. by rewrite debug_eq.
Qed.

Lemma getAsset_hit w (c : gmap string Image) path img :
  cache (this w) = Some c -> c !! path = Some img ->
  getAsset path w = (w, Normal (VImage img)).
Proof. intros Hc Hl. rewrite (getAsset_eq _ c path Hc). by rewrite Hl. Qed.

Lemma getAsset_miss w (c : gmap string Image) path :
  cache (this w) = Some c -> c !! path = None -> inherited path = false ->
  (getAsset path w).2 = Normal VNull.
Proof. intros Hc Hl Hi. rewrite (getAsset_eq _ c path Hc). by rewrite Hl, Hi. Qed.

Lemma getAsset_inherited w (c : gmap string Image) path :
  cache (this w) = Some c -> c !! path = None -> inherited path = true ->
  getAsset path w = (w, Normal (VInherited path)).
Proof. intros Hc Hl Hi. rewrite (getAsset_eq _ c path Hc). by rewrite Hl, Hi. Qed.

Lemma getAsset_cases w (c : gmap string Image) path :
  cache (this w) = Some c ->
  (exists v, getAsset path w = (w, Normal v))
  \/ getAsset path w
     = (logged ("Asset " +:+ path +:+ " not found in cache") w, Normal VNull).
Proof.
  intros Hc. rewrite (getAsset_eq _ c path Hc).
  destruct (c !! path); [left; by eexists|].
  destruct (inherited path); [left; by eexists|by right].
Qed.

(** ** Worlds reached from an initialised instance *)

Lemma consistent_start d o : consistent d o (start (initialised d o)).
Proof.
  exists [], ∅. split; [done|]. split; [done|].
  intros p Hp. simpl in Hp. by apply elem_of_nil in Hp.
Qed.

Lemma consistent_same d o w w' :
  this w' = this w -> images w' = images w ->
  consistent d o w -> consistent d o w'.
Proof. intros Ht Hi (q & c & H). exists q, c. by rewrite Ht, Hi. Qed.

Lemma consistent_logged d o message w :
  consistent d o w -> consistent d o (logged message w).
Proof. apply consistent_same; [apply logged_this|apply logged_images]. Qed.

Lemma src_issue (q : list string) callback :
  src <$> ((fun p => Fetch p callback Pending) <$> q) = q.
Proof. induction q as [|p q IH]; [done|]. rewrite !fmap_cons. simpl. by rewrite IH. Qed.

Lemma length_strict_equal_Num len z :
  length_strict_equal len (Num z) = true <-> Z.of_nat len = z.
Proof. simpl. apply Z.eqb_eq. Qed.

Lemma exec_consistent d o (x : op) w w' r :
  consistent d o w -> exec x w = Some (w', r) ->
  consistent d o w' /\ exists v, r = Normal v.
Proof.
  intros (q & c & Hthis & Hc & Hsrc) Hx.
  assert (Hq : downloadQueue (this w) = Some q) by by rewrite Hthis.
  assert (Hca : cache (this w) = Some c) by by rewrite Hthis.
  destruct x as [path|callback| |path|img ev]; simpl in Hx.
  - rewrite (queueDownload_eq _ q) in Hx by done. injection Hx as <- <-.
    split; [|by eexists]. apply consistent_logged.
    exists (q ++ [path]), c. simpl. rewrite Hthis. split; [done|].
    split; [done|]. intros p Hp. apply elem_of_app. left. by apply Hsrc.
  - destruct (decide (q = [])) as [->|Hne].
    + rewrite downloadAll_empty in Hx by done. injection Hx as <- <-.
      split; [|by eexists].
      apply (consistent_same _ _ w); [done|done|by exists [], c].
    + rewrite (downloadAll_issue _ q c) in Hx by done. injection Hx as <- <-.
      split; [|by eexists].
      exists q, (store_all q (length (images w)) c). simpl.
      rewrite !tally_app, !tally_issue, !Z.add_0_r by done.
      rewrite Hthis. split; [done|].
      rewrite fmap_app, src_issue. split.
      * intros p. rewrite store_all_lookup, last_index_app, length_fmap. simpl.
        destruct (last_index p q (length (images w))); [done|]. apply Hc.
      * intros p [Hp|Hp]%elem_of_app; [by apply Hsrc|done].
  - rewrite (isDone_eq _ q) in Hx by done. injection Hx as <- <-.
    split; [|by eexists]. by exists q, c.
  - destruct (getAsset_cases w c path Hca) as [[v Hg]|Hg]; rewrite Hg in Hx.
    + injection Hx as <- <-. split; [|by eexists]. by exists q, c.
    + injection Hx as <- <-. split; [|by eexists].
      apply consistent_logged. by exists q, c.
  - destruct (images w !! img) as [[p cb st]|] eqn:Hi;
      [|by unfold dispatch in Hx; rewrite Hi in Hx].
    destruct st; try by (unfold dispatch in Hx; rewrite Hi in Hx).
    rewrite (dispatch_eq _ q _ _ p cb) in Hx by done.
    injection Hx as <- <-. split; [|by eexists].
    set (w1 := counted ev (logged (message_of ev p)
                 (with_images (<[img := Fetch p cb (settled ev)]>) w))).
    assert (H1 : consistent d o w1).
    { exists q, c. unfold w1.
      assert (Hi1 : images (counted ev (logged (message_of ev p)
                 (with_images (<[img := Fetch p cb (settled ev)]>) w)))
               = <[img := Fetch p cb (settled ev)]> (images w)).
      { destruct ev; simpl; by rewrite logged_images. }
      rewrite Hi1, (src_settle _ _ _ _ Pending) by done.
      split; [|by split].
      rewrite !(tally_settle _ _ _ _ _ _ Hi) by done.
      destruct ev; simpl; rewrite logged_this; simpl; rewrite Hthis; simpl;
        by rewrite Z.add_0_r. }
    unfold handled. fold w1. destruct (length_strict_equal _ _); [|done].
    by apply (consistent_same _ _ w1).
Qed.

Lemma run_consistent d o (ops : list op) w w' rs :
  consistent d o w -> run ops w = Some (w', rs) ->
  consistent d o w' /\ Forall (fun r => exists v, r = Normal v) rs.
Proof.
  revert w w' rs. induction ops as [|x ops IH]; intros w w' rs Hw Hrun; simpl in Hrun.
  - injection Hrun as <- <-. by split.
  - destruct (exec x w) as [[w1 r]|] eqn:Hx; [|done].
    destruct (run ops w1) as [[w2 rs2]|] eqn:Hr; [|done].
    injection Hrun as <- <-.
    destruct (exec_consistent _ _ _ _ _ _ Hw Hx) as [Hw1 Hr1].
    destruct (IH _ _ _ Hw1 Hr) as [Hw2 Hrs]. split; [done|]. by constructor.
Qed.

Lemma counters_Some w s e :
  counters w = Some (s, e) <->
  successCount (this w) = Num s /\ errorCount (this w) = Num e.
Proof.
  unfold counters. destruct (successCount (this w)), (errorCount (this w));
    split; try done; try (by intros [? ?]).
  - by intros [= -> ->].
  - by intros [[= ->] [= ->]].
Qed.

Lemma consistent_counters d o w :
  consistent d o w ->
  counters w = Some (tally Loaded (images w), tally Failed (images w)).
Proof. intros (q & c & Hthis & _). apply counters_Some. by rewrite Hthis. Qed.

Lemma consistent_empty_queue d o w :
  consistent d o w -> downloadQueue (this w) = Some [] -> images w = [].
Proof.
  intros (q & c & Hthis & _ & Hsrc) Hq. rewrite Hthis in Hq. injection Hq as ->.
  destruct (images w) as [|f l]; [done|].
  specialize (Hsrc (src f)). rewrite fmap_cons in Hsrc.
  exfalso. eapply not_elem_of_nil, Hsrc. by left.
Qed.



(** ** Effects of the methods in any world *)

Section Tame.
Context {A B : Type}.

Lemma tame_still (m : M A) : (forall w, (m w).1 = w) -> tame m.
Proof.
  intros Hm w. rewrite Hm. split; [done|]. exists []. by rewrite app_nil_r.
Qed.

Lemma tame_ret (a : A) : tame (ret a).
Proof. by apply tame_still. Qed.

Lemma tame_read (f : World -> A) : tame (read f).
Proof. by apply tame_still. Qed.

Lemma tame_defined (f : AssetManager -> option A) : tame (defined f).
Proof. apply tame_still. intros w. unfold defined. by destruct (f (this w)). Qed.

Lemma tame_bind (m : M A) (k : A -> M B) :
  tame m -> (forall a, tame (k a)) -> tame (bind m k).
Proof.
  intros Hm Hk w. unfold bind. specialize (Hm w).
  destruct (m w) as [w1 [a|e]]; simpl in *; [|done].
  destruct Hm as (Hd & l1 & He & Hl1).
  destruct (Hk a w1) as (Hd2 & l2 & He2 & Hl2).
  split; [congruence|]. exists (l1 ++ l2). rewrite He2, He, app_assoc.
  split; [done|]. apply Forall_app. split; [done|]. by rewrite <- Hd.
Qed.
End Tame.

Lemma tame_update (f : World -> World) :
  (forall w, debugging (this (f w)) = debugging (this w)) ->
  (forall w, effects (f w) = effects w) ->
  tame (update f).
Proof.
  intros Hd He w. simpl. split; [done|]. exists []. by rewrite app_nil_r.
Qed.

Lemma tame_debug message val : tame (debug message val).
Proof.
  intros w. unfold debug, bind, read, ret, update.
  destruct (truthy (debugging (this w))) eqn:Hd; simpl.
  - split; [done|]. exists [Log message val]. split; [done|]. by constructor.
  - split; [done|]. exists []. by rewrite app_nil_r.
Qed.

Lemma tame_invoke callback : tame (invoke callback).
Proof.
  intros w. simpl. split; [done|]. exists [Call callback []].
  split; [done|]. by constructor.
Qed.

Lemma tame_for_of {A} (xs : list A) (body : A -> M unit) :
  (forall x, tame (body x)) -> tame (for_of xs body).
Proof.
  intros Hb. induction xs as [|x xs IH]; simpl; [apply tame_ret|].
  by apply tame_bind.
Qed.

Ltac tame_step :=
  first [ apply tame_debug | apply tame_invoke
        | apply tame_ret | apply tame_read | apply tame_defined
        | apply tame_for_of; intros ?
        | apply tame_bind; [|intros ?]
        | apply tame_update; [by intros [[] ? ?]|by intros [[] ? ?]] ].

Lemma tame_queueDownload path : tame (queueDownload path).
Proof. unfold queueDownload. repeat tame_step. Qed.

Lemma tame_isDone : tame isDone.
Proof. unfold isDone. repeat tame_step. Qed.

Ltac tame_method :=
  repeat first
    [ apply tame_isDone
    | tame_step
    | match goal with
      | |- tame (if ?b then _ else _) => destruct b
      | |- tame (match ?o with Some _ => _ | None => _ end) => destruct o
      end ].

Lemma tame_on_load path callback : tame (on_load path callback).
Proof. unfold on_load. tame_method. Qed.

Lemma tame_on_error path callback : tame (on_error path callback).
Proof. unfold on_error. tame_method. Qed.

Lemma tame_downloadAll callback : tame (downloadAll callback).
Proof. unfold downloadAll, new_Image, cache_store. tame_method. Qed.

Lemma tame_getAsset path : tame (getAsset path).
Proof. unfold getAsset. tame_method. Qed.

(** Every operation of a run keeps [this.debugging] and appends only
    allowed effects. *)
Lemma exec_tame (x : op) w w' r :
  exec x w = Some (w', r) ->
  debugging (this w') = debugging (this w)
  /\ exists l, effects w' = effects w ++ l
              /\ Forall (allowed (debugging (this w))) l.
Proof.
  destruct x as [path|callback| |path|img ev]; simpl; intros Hx.
  - injection Hx as Hx. pose proof (tame_queueDownload path w) as H.
    rewrite Hx in H. by destruct r.
  - injection Hx as Hx. pose proof (tame_downloadAll callback w) as H.
    by rewrite Hx in H.
  - injection Hx as Hx. pose proof (tame_isDone w) as H.
    destruct (isDone w) as [w1 [b|e]]; injection Hx as <- <-; apply H.
  - injection Hx as Hx. pose proof (tame_getAsset path w) as H.
    by rewrite Hx in H.
  - unfold dispatch in Hx.
    destruct (images w !! img) as [[p cb [| |]]|]; try done.
    simpl in Hx. injection Hx as Hx.
    set (w0 := with_images (<[img := Fetch p cb (settled ev)]>) w) in *.
    assert (H : debugging (this (match ev with
                                 | load => on_load p cb w0
                                 | error => on_error p cb w0
                                 end).1) = debugging (this w0)
              /\ exists l, effects (match ev with
                                    | load => on_load p cb w0
                                    | error => on_error p cb w0
                                    end).1 = effects w0 ++ l
                          /\ Forall (allowed (debugging (this w0))) l).
    { destruct ev; [apply tame_on_load|apply tame_on_error]. }
    destruct (match ev with load => on_load p cb w0 | error => on_error p cb w0 end)
      as [w1 [[]|e]]; injection Hx as <- <-; apply H.
Qed.

Lemma run_tame (ops : list op) w w' rs :
  run ops w = Some (w', rs) ->
  debugging (this w') = debugging (this w)
  /\ exists l, effects w' = effects w ++ l
              /\ Forall (allowed (debugging (this w))) l.
Proof.
  revert w w' rs. induction ops as [|x ops IH]; intros w w' rs Hrun; simpl in Hrun.
  - injection Hrun as <- <-. split; [done|]. exists []. by rewrite app_nil_r.
  - destruct (exec x w) as [[w1 r]|] eqn:Hx; [|done].
    destruct (run ops w1) as [[w2 rs2]|] eqn:Hr; [|done].
    injection Hrun as <- <-.
    destruct (exec_tame _ _ _ _ Hx) as (Hd1 & l1 & He1 & Hl1).
    destruct (IH _ _ _ Hr) as (Hd2 & l2 & He2 & Hl2).
    split; [congruence|]. exists (l1 ++ l2). rewrite He2, He1, app_assoc.
    split; [done|]. apply Forall_app. split; [done|]. by rewrite <- Hd1.
Qed.

Lemma calls_allowed d (l : list effect) :
  Forall (allowed d) l -> Forall (fun x => x.2 = []) (calls l).
Proof.
  induction 1 as [|[m v|f args] l Hx Hl IH]; simpl; [done|done|].
  by constructor.
Qed.

Lemma handled_eq ev message q callback w s e :
  counters w = Some (s, e) ->
  let w' := handled ev message q callback w in
  this w' = match ev with
            | load => set_successCount (Num (s + 1)) (this w)
            | error => set_errorCount (Num (e + 1)) (this w)
            end
  /\ images w' = images w
  /\ calls (effects w')
     = calls (effects w)
       ++ (if decide (s + e + 1 = Z.of_nat (length q)) then [(callback, [])] else []).
Proof.
  intros [Hs He]%counters_Some. unfold handled.
  set (w1 := counted ev (logged message w)).
  assert (Ht : this w1 = match ev with
                         | load => set_successCount (Num (s + 1)) (this w)
                         | error => set_errorCount (Num (e + 1)) (this w)
                         end).
  { unfold w1. destruct ev; simpl; rewrite logged_this; [by rewrite Hs|by rewrite He]. }
  assert (Hi : images w1 = images w).
  { unfold w1. destruct ev; simpl; by rewrite logged_images. }
  assert (Hc : calls (effects w1) = calls (effects w)).
  { unfold w1. destruct ev; simpl; by rewrite logged_calls. }
  assert (Hp : plus (successCount (this w1)) (errorCount (this w1)) = Num (s + e + 1)).
  { rewrite Ht. destruct ev; simpl; rewrite ?Hs, ?He; simpl; f_equal; lia. }
  rewrite Hp. simpl.
  destruct (Z.eqb_spec (Z.of_nat (length q)) (s + e + 1)) as [Heq|Hne];
    destruct (decide (s + e + 1 = Z.of_nat (length q))) as [Heq'|Hne']; try lia.
  - simpl. rewrite calls_app, Hc. by rewrite Ht, Hi.
  - by rewrite app_nil_r.
Qed.

Lemma last_index_elem path (l : list string) base :
  path ∈ l -> exists i, last_index path l base = Some i.
Proof.
  intros Hin. destruct (last_index path l base) as [i|] eqn:Hl; [by exists i|].
  by apply last_index_None in Hl.
Qed.

Lemma last_index_unique path (l : list string) i :
  l !! i = Some path -> (forall j, (i < j)%nat -> l !! j <> Some path) ->
  last_index path l 0 = Some i.
Proof.
  intros Hi Hlast.
  destruct (last_index_elem path l 0) as [k Hk]; [by eapply list_elem_of_lookup_2|].
  destruct (last_index_Some _ _ _ _ Hk) as (_ & Hat & Hno).
  rewrite Nat.sub_0_r in Hat, Hno. rewrite Hk. f_equal.
  destruct (Nat.lt_trichotomy k i) as [Hlt|[Heq|Hgt]]; [|done|].
  - by destruct (Hno i Hlt).
  - by destruct (Hlast k Hgt).
Qed.

Lemma handled_keeps ev message q callback w :
  downloadQueue (this (handled ev message q callback w)) = downloadQueue (this w)
  /\ cache (this (handled ev message q callback w)) = cache (this w)
  /\ images (handled ev message q callback w) = images w.
Proof.
  unfold handled. destruct (length_strict_equal _ _); destruct ev; simpl;
    by rewrite logged_this, logged_images.
Qed.

(** ** How one operation changes the queue and the images *)

Lemma exec_shape (x : op) w w' r q c :
  downloadQueue (this w) = Some q ->
  cache (this w) = Some c ->
  exec x w = Some (w', r) ->
  downloadQueue (this w') = Some (q ++ queued [x])
  /\ ((images w' = images w /\ (downloads [x] = O \/ q = []))
      \/ (exists cb, x = DownloadAll cb /\ q <> []
            /\ images w' = images w ++ ((fun p => Fetch p cb Pending) <$> q))
      \/ (exists img ev p cb, x = Settle img ev
            /\ images w !! img = Some (Fetch p cb Pending)
            /\ images w' = <[img := Fetch p cb (settled ev)]> (images w))).
Proof.
  intros Hq Hc Hx. destruct x as [path|callback| |path|img ev]; simpl in Hx.
  - rewrite (queueDownload_eq _ q) in Hx by done. injection Hx as <- <-.
    rewrite logged_this, logged_images. simpl. split; [done|]. left. by split; [|left].
  - destruct (decide (q = [])) as [->|Hne].
    + rewrite downloadAll_empty in Hx by done. injection Hx as <- <-. simpl.
      split; [done|]. left. by split; [|right].
    + rewrite (downloadAll_issue _ q c) in Hx by done. injection Hx as <- <-.
      simpl. rewrite app_nil_r. split; [done|]. right. left. by exists callback.
  - rewrite (isDone_eq _ q) in Hx by done. injection Hx as <- <-. simpl.
    rewrite app_nil_r. split; [done|]. left. by split; [|left].
  - simpl. rewrite app_nil_r.
    destruct (getAsset_cases w c path Hc) as [[v Hg]|Hg]; rewrite Hg in Hx;
      injection Hx as <- <-.
    + split; [done|]. left. by split; [|left].
    + rewrite logged_this, logged_images. split; [done|]. left. by split; [|left].
  - destruct (images w !! img) as [[p cb st]|] eqn:Hi;
      [|by unfold dispatch in Hx; rewrite Hi in Hx].
    destruct st; try by (unfold dispatch in Hx; rewrite Hi in Hx).
    rewrite (dispatch_eq _ q _ _ p cb) in Hx by done. injection Hx as <- <-.
    simpl. rewrite app_nil_r.
    destruct (handled_keeps ev (message_of ev p) q cb
                (with_images (<[img := Fetch p cb (settled ev)]>) w))
      as (Hq' & _ & Hi').
    rewrite Hq', Hi'. simpl. split; [done|]. right. right. by exists img, ev, p, cb.
Qed.

Lemma downloads_cons (x : op) ops :
  downloads (x :: ops) = (downloads [x] + downloads ops)%nat.
Proof. by destruct x. Qed.

Lemma queued_cons (x : op) ops : queued (x :: ops) = queued [x] ++ queued ops.
Proof. by destruct x. Qed.

Lemma consistent_defined d o w :
  consistent d o w ->
  exists q c, downloadQueue (this w) = Some q /\ cache (this w) = Some c.
Proof. intros (q & c & Hthis & _). exists q, c. by rewrite Hthis. Qed.

Lemma exec_issued d o (x : op) w w' r :
  consistent d o w -> exec x w = Some (w', r) ->
  (queue_length w <= queue_length w')%nat
  /\ (downloads [x] = O -> length (images w') = length (images w))
  /\ (images w = [] -> (length (images w') <= queue_length w')%nat)
  /\ tally Loaded (images w) <= tally Loaded (images w')
  /\ tally Failed (images w) <= tally Failed (images w').
Proof.
  intros Hw Hx. destruct (consistent_defined _ _ _ Hw) as (q & c & Hq & Hc).
  destruct (exec_shape _ _ _ _ _ _ Hq Hc Hx) as [Hq' Hi].
  unfold queue_length. rewrite Hq, Hq', length_app.
  split; [lia|].
  destruct Hi as [[Hi Hd]|[(cb & -> & Hne & Hi)|(img & ev & p & cb & -> & Hl & Hi)]];
    rewrite Hi.
  - split; [done|]. split; [intros ->; simpl; lia|]. lia.
  - split; [done|]. split.
    + intros ->. simpl. rewrite length_fmap. lia.
    + rewrite !tally_app. pose proof (tally_nonneg Loaded ((fun p => Fetch p cb Pending) <$> q)).
      pose proof (tally_nonneg Failed ((fun p => Fetch p cb Pending) <$> q)). lia.
  - rewrite length_insert. split; [done|]. split.
    + intros Hnil. by rewrite Hnil in Hl.
    + rewrite !(tally_settle _ _ _ _ _ _ Hl) by done.
      split; case_decide; lia.
Qed.

Lemma run_issued d o (ops : list op) w w' rs :
  consistent d o w -> run ops w = Some (w', rs) ->
  (queue_length w <= queue_length w')%nat
  /\ (downloads ops = O -> length (images w') = length (images w))
  /\ ((downloads ops <= 1)%nat -> images w = [] ->
      (length (images w') <= queue_length w')%nat).
Proof.
  revert w w' rs. induction ops as [|x ops IH]; intros w w' rs Hw Hrun.
  - injection Hrun as <- <-. split; [done|]. split; [done|].
    intros _ ->. simpl. lia.
  - cbn [run] in Hrun.
    destruct (exec x w) as [[w1 r]|] eqn:Hx; [|done].
    destruct (run ops w1) as [[w2 rs2]|] eqn:Hr; [|done].
    injection Hrun as <- <-.
    destruct (exec_consistent _ _ _ _ _ _ Hw Hx) as [Hw1 _].
    destruct (exec_issued _ _ _ _ _ _ Hw Hx) as (Hql & Hsame & Hfirst & _).
    destruct (IH _ _ _ Hw1 Hr) as (Hql' & Hsame' & Hfirst').
    rewrite downloads_cons. split; [lia|]. split.
    + intros Hd. rewrite Hsame' by lia. apply Hsame. lia.
    + intros Hd Hnil. destruct (decide (downloads [x] = O)) as [Hz|Hnz].
      * apply Hfirst'; [lia|]. apply nil_length_inv. by rewrite (Hsame Hz), Hnil.
      * rewrite Hsame' by lia. specialize (Hfirst Hnil). lia.
Qed.

Lemma run_queued d o (ops : list op) w w' rs q :
  consistent d o w -> run ops w = Some (w', rs) ->
  downloadQueue (this w) = Some q ->
  downloadQueue (this w') = Some (q ++ queued ops).
Proof.
  revert w w' rs q. induction ops as [|x ops IH]; intros w w' rs q Hw Hrun Hq.
  - injection Hrun as <- <-. simpl. by rewrite app_nil_r.
  - cbn [run] in Hrun.
    destruct (exec x w) as [[w1 r]|] eqn:Hx; [|done].
    destruct (run ops w1) as [[w2 rs2]|] eqn:Hr; [|done].
    injection Hrun as <- <-.
    destruct (exec_consistent _ _ _ _ _ _ Hw Hx) as [Hw1 _].
    destruct (consistent_defined _ _ _ Hw) as (q0 & c & Hq0 & Hc).
    destruct (exec_shape _ _ _ _ _ _ Hq Hc Hx) as [Hq1 _].
    rewrite (IH _ _ _ _ Hw1 Hr Hq1), (queued_cons x ops).
    f_equal. symmetry. apply app_assoc.
Qed.

(** ** A cycle: [downloadAll], then the events of its fetches *)

Lemma occurrences_total evs :
  occurrences load evs + occurrences error evs = Z.of_nat (length evs).
Proof.
  induction evs as [|[img ev] evs IH]; [done|].
  simpl occurrences. simpl length. destruct ev; lia.
Qed.

Lemma run_app (ops1 ops2 : list op) w :
  run (ops1 ++ ops2) w
  = match run ops1 w with
    | Some (w1, rs1) =>
        match run ops2 w1 with
        | Some (w2, rs2) => Some (w2, rs1 ++ rs2)
        | None => None
        end
    | None => None
    end.
Proof.
  revert w. induction ops1 as [|x ops1 IH]; intros w; simpl.
  - by destruct (run ops2 w) as [[w2 rs2]|].
  - destruct (exec x w) as [[w1 r]|]; [|done]. rewrite IH.
    destruct (run ops1 w1) as [[w2 rs2]|]; [|done].
    by destruct (run ops2 w2) as [[w3 rs3]|].
Qed.

Lemma events_app (ops1 ops2 : list op) :
  events (ops1 ++ ops2) = events ops1 ++ events ops2.
Proof.
  induction ops1 as [|x ops1 IH]; [done|].
  destruct x; simpl; by rewrite ?IH.
Qed.

(** The part of a cycle after [downloadAll]: events of pending images of
    that cycle, each at most once, with reads in between. *)
Lemma cycle_steps (ops : list op) :
  forall w q c s e callback,
    downloadQueue (this w) = Some q ->
    cache (this w) = Some c ->
    counters w = Some (s, e) ->
    Forall (fun x => requests x = false) ops ->
    NoDup (events ops).*1 ->
    (forall img, img ∈ (events ops).*1 ->
       exists p, images w !! img = Some (Fetch p callback Pending)) ->
    s + e + Z.of_nat (length (events ops)) <= Z.of_nat (length q) ->
    exists w' rs,
      run ops w = Some (w', rs)
      /\ Forall (fun r => exists v, r = Normal v) rs
      /\ downloadQueue (this w') = Some q
      /\ cache (this w') = Some c
      /\ counters w'
         = Some (s + occurrences load (events ops), e + occurrences error (events ops))
      /\ calls (effects w')
         = calls (effects w)
           ++ match events ops with
              | [] => []
              | _ => if decide (s + e + Z.of_nat (length (events ops))
                                = Z.of_nat (length q))
                     then [(callback, [])] else []
              end
      /\ (forall img p cb st,
            images w !! img = Some (Fetch p cb st) ->
            exists st', images w' !! img = Some (Fetch p cb st')).
Proof.
  induction ops as [|x ops IH];
    intros w q c s e callback Hq Hca Hc Hreq Hnd Hpend Hle.
  - exists w, []. simpl. rewrite !Z.add_0_r, app_nil_r. repeat split; try done.
    intros img p cb st Hi. by exists st.
  - apply Forall_cons in Hreq as [Hx Hreq].
    destruct x as [path|cb0| |path|img ev]; try discriminate Hx.
    + (* isDone() *)
      destruct (IH w q c s e callback) as (w' & rs & Hrun & Hrs & H');
        [done..|].
      exists w', (Normal (VBool (length_strict_equal (length q)
                    (plus (successCount (this w)) (errorCount (this w))))) :: rs).
      cbn [run exec]. rewrite (isDone_eq _ q Hq). simpl. rewrite Hrun.
      split; [done|]. split; [|done]. constructor; [by eexists|done].
    + (* getAsset(path) *)
      assert (Hstep : exists w1 v,
                getAsset path w = (w1, Normal v) /\ this w1 = this w
                /\ images w1 = images w /\ calls (effects w1) = calls (effects w)).
      { rewrite (getAsset_eq _ c path Hca).
        destruct (c !! path) as [i|]; [|destruct (inherited path)].
        - by exists w, (VImage i).
        - by exists w, (VInherited path).
        - eexists _, VNull. split; [done|].
          by rewrite logged_this, logged_images, logged_calls. }
      destruct Hstep as (w1 & v & Hget & Ht1 & Hi1 & Hc1).
      destruct (IH w1 q c s e callback) as (w' & rs & Hrun & Hrs & H');
        [by rewrite Ht1|by rewrite Ht1
        |apply counters_Some; rewrite Ht1; by apply counters_Some
        |done|done|by rewrite Hi1|done|].
      exists w', (Normal v :: rs). cbn [run exec]. rewrite Hget, Hrun.
      split; [done|]. split; [constructor; [by eexists|done]|].
      rewrite Hi1, Hc1 in H'. exact H'.
    + (* an event *)
      cbn [events] in Hnd, Hpend, Hle |- *. rewrite fmap_cons in Hnd, Hpend.
      simpl fst in Hnd, Hpend.
      apply NoDup_cons in Hnd as [Hnotin Hnd].
      destruct (Hpend img) as [p Hi]; [by left|].
      set (w0 := with_images (<[img := Fetch p callback (settled ev)]>) w).
      set (w1 := handled ev (message_of ev p) q callback w0).
      assert (Hex : exec (Settle img ev) w = Some (w1, Normal VUndefined)).
      { simpl. by rewrite (dispatch_eq _ q _ _ p callback). }
      assert (Hc0 : counters w0 = Some (s, e)).
      { apply counters_Some. by apply counters_Some in Hc. }
      destruct (handled_eq ev (message_of ev p) q callback w0 s e Hc0)
        as (Ht1 & Hi1 & Hcalls1). fold w1 in Ht1, Hi1, Hcalls1.
      destruct (handled_keeps ev (message_of ev p) q callback w0)
        as (Hq1 & Hca1 & _).
      fold w1 in Hq1, Hca1.
      assert (Hq1' : downloadQueue (this w1) = Some q) by (rewrite Hq1; exact Hq).
      assert (Hca1' : cache (this w1) = Some c) by (rewrite Hca1; exact Hca).
      set (s1 := s + occurrences load [(img, ev)]).
      set (e1 := e + occurrences error [(img, ev)]).
      assert (Hc1 : counters w1 = Some (s1, e1)).
      { apply counters_Some. apply counters_Some in Hc as [Hs He]. rewrite Ht1.
        unfold s1, e1. destruct ev; simpl; rewrite ?Hs, ?He, ?Z.add_0_r; by split. }
      simpl length in Hle.
      assert (Hs1 : s1 + e1 = s + e + 1) by (unfold s1, e1; simpl; destruct ev; lia).
      destruct (IH w1 q c s1 e1 callback)
        as (w' & rs & Hrun & Hrs & Hq' & Hca' & Hc' & Hcalls' & Himg');
        [exact Hq1'|exact Hca1'|exact Hc1|exact Hreq|exact Hnd| |lia|].
      { intros j Hj. destruct (Hpend j) as [pj Hpj]; [by right|]. exists pj.
        rewrite Hi1. unfold w0. simpl. rewrite list_lookup_insert_ne; [done|].
        by intros ->. }
      exists w', (Normal VUndefined :: rs). split.
      { cbn [run]. by rewrite Hex, Hrun. }
      split; [constructor; [by eexists|done]|].
      split; [done|]. split; [done|]. split.
      { rewrite Hc'. unfold s1, e1. simpl occurrences.
        f_equal. f_equal; destruct ev; lia. }
      split.
      { rewrite Hcalls', Hcalls1, <- app_assoc. f_equal.
        destruct (events ops) as [|y evs'].
        - simpl length. rewrite app_nil_r.
          repeat case_decide; try done; lia.
        - simpl length in *. repeat case_decide; try done; lia. }
      intros j pj cbj stj Hj.
      destruct (decide (j = img)) as [Heq|Hne].
      * subst j. rewrite Hi in Hj. injection Hj as <- <- <-.
        apply (Himg' img p callback (settled ev)).
        rewrite Hi1. unfold w0. simpl. apply list_lookup_insert_eq.
        by eapply lookup_lt_Some.
      * apply (Himg' j pj cbj stj). rewrite Hi1. unfold w0. simpl.
        by rewrite list_lookup_insert_ne.
Qed.

Lemma cycle_progress w q c callback (ops : list op) :
  downloadQueue (this w) = Some q ->
  q <> [] ->
  cache (this w) = Some c ->
  counters w = Some (0, 0) ->
  Forall (fun x => requests x = false) ops ->
  NoDup (events ops).*1 ->
  (forall img, img ∈ (events ops).*1 ->
     (length (images w) <= img < length (images w) + length q)%nat) ->
  exists w' rs,
    run (DownloadAll callback :: ops) w = Some (w', rs)
    /\ Forall (fun r => exists v, r = Normal v) rs
    /\ downloadQueue (this w') = Some q
    /\ cache (this w') = Some (store_all q (length (images w)) c)
    /\ counters w'
       = Some (occurrences load (events ops), occurrences error (events ops))
    /\ calls (effects w')
       = calls (effects w)
         ++ (if decide (length (events ops) = length q) then [(callback, [])] else [])
    /\ (forall i p, q !! i = Some p ->
          exists st, images w' !! (length (images w) + i)%nat
                     = Some (Fetch p callback st)).
Proof.
  intros Hq Hne Hc Hcnt Hreq Hnd Hrange.
  set (w0 := MkWorld (set_cache (store_all q (length (images w)) c) (this w))
               (images w ++ ((fun p => Fetch p callback Pending) <$> q))
               (effects w)).
  assert (Hx : exec (DownloadAll callback) w = Some (w0, Normal VUndefined)).
  { simpl. by rewrite (downloadAll_issue _ q c). }
  assert (Hnew : forall i p, q !! i = Some p ->
            images w0 !! (length (images w) + i)%nat = Some (Fetch p callback Pending)).
  { intros i p Hi. unfold w0. simpl. rewrite lookup_app_r by lia.
    rewrite list_lookup_fmap, Nat.add_comm, Nat.add_sub. by rewrite Hi. }
  assert (Hlen : (length (events ops) <= length q)%nat).
  { rewrite <- (length_fmap fst (events ops)),
      <- (length_seq (length q) (length (images w))).
    apply submseteq_length, NoDup_submseteq; [done|].
    intros img Himg. apply elem_of_seq. specialize (Hrange img Himg). lia. }
  destruct (cycle_steps ops w0 q (store_all q (length (images w)) c) 0 0 callback)
    as (w' & rs & Hrun & Hrs & Hq' & Hca' & Hc' & Hcalls' & Himg');
    [done|done| |done|done| |lia|].
  { apply counters_Some. by apply counters_Some in Hcnt. }
  { intros img Himg. specialize (Hrange img Himg).
    destruct (lookup_lt_is_Some_2 q (img - length (images w))) as [p Hp]; [lia|].
    exists p. specialize (Hnew _ _ Hp).
    by replace (length (images w) + (img - length (images w)))%nat with img in Hnew by lia. }
  exists w', (Normal VUndefined :: rs). split.
  { cbn [run]. by rewrite Hx, Hrun. }
  split; [constructor; [by eexists|done]|].
  split; [done|]. split; [done|]. split; [by rewrite Hc', !Z.add_0_l|].
  split.
  { rewrite Hcalls'. f_equal. destruct (events ops) as [|y evs'].
    - simpl length. case_decide; [|done]. by destruct q.
    - repeat case_decide; try done; lia. }
  intros i p Hi. by apply (Himg' _ _ _ Pending), Hnew.
Qed.

(** Any initial part of such a run is such a run. *)
Lemma events_prefix (ops : list op) n N m :
  Forall (fun x => requests x = false) ops ->
  (events ops).*1 ≡ₚ seq n N ->
  Forall (fun x => requests x = false) (take m ops)
  /\ NoDup (events (take m ops)).*1
  /\ (forall img, img ∈ (events (take m ops)).*1 -> (n <= img < n + N)%nat)
  /\ (length (events (take m ops)) <= N)%nat
  /\ ((length ops <= m)%nat -> length (events (take m ops)) = N).
Proof.
  intros Hreq Hperm.
  assert (Hnd : NoDup (events ops).*1) by (rewrite Hperm; apply NoDup_seq).
  assert (Hlen : length (events ops) = N).
  { by rewrite <- (length_fmap fst (events ops)), Hperm, length_seq. }
  assert (Hsub : (events (take m ops)).*1 `sublist_of` (events ops).*1).
  { rewrite <- (take_drop m ops) at 2. rewrite events_app, fmap_app.
    by apply sublist_inserts_r. }
  split; [by apply Forall_take|]. split; [exact (sublist_NoDup _ _ Hnd Hsub)|].
  split; [|split].
  - intros img Himg. apply (elem_of_seq n N img). rewrite <- Hperm.
    by eapply elem_of_sublist.
  - rewrite <- Hlen, <- !(length_fmap fst). by apply sublist_length.
  - intros Hm. by rewrite take_ge.
Qed.

Lemma run_queue_all (q : list string) :
  forall w q0,
    downloadQueue (this w) = Some q0 ->
    exists w',
      run (QueueDownload <$> q) w = Some (w', replicate (length q) (Normal VUndefined))
      /\ this w' = set_downloadQueue (q0 ++ q) (this w)
      /\ images w' = images w
      /\ calls (effects w') = calls (effects w).
Proof.
  induction q as [|p q IH]; intros w q0 Hq.
  - exists w. simpl. rewrite app_nil_r. repeat split; try done.
    destruct w as [[] ? ?]; simpl in *. by subst.
  - set (w1 := logged ("Queued " +:+ p +:+ " for download")
                 (with_this (set_downloadQueue (q0 ++ [p])) w)).
    assert (Ht1 : this w1 = set_downloadQueue (q0 ++ [p]) (this w))
      by (unfold w1; by rewrite logged_this).
    destruct (IH w1 (q0 ++ [p])) as (w' & Hrun & Ht & Hi & Hc); [by rewrite Ht1|].
    exists w'. rewrite fmap_cons. cbn [run exec].
    rewrite (queueDownload_eq _ q0) by done. fold w1. rewrite Hrun.
    split; [done|]. split; [|split].
    + rewrite Ht, Ht1. unfold set_downloadQueue. simpl. by rewrite <- app_assoc.
    + rewrite Hi. unfold w1. by rewrite logged_images.
    + rewrite Hc. unfold w1. by rewrite logged_calls.
Qed.

Lemma queued_elem path (ops : list op) :
  path ∈ queued ops -> QueueDownload path ∈ ops.
Proof.
  induction ops as [|x ops IH]; simpl; [by intros H%elem_of_nil|].
  destruct x; try (intros H; right; by apply IH).
  intros [->|H]%elem_of_cons; [by left|right; by apply IH].
Qed.

(** ** No method looks at [this.options] *)

Section Blind.
Context {A B : Type}.

Lemma blind_ret (a : A) : blind (ret a).
Proof. by intros o w. Qed.

Lemma blind_read (f : World -> A) :
  (forall o w, f (with_this (set_options o) w) = f w) -> blind (read f).
Proof. intros Hf o w. unfold read. simpl. by rewrite Hf. Qed.

Lemma blind_defined (f : AssetManager -> option A) :
  (forall o a, f (set_options o a) = f a) -> blind (defined f).
Proof.
  intros Hf o w. unfold defined. simpl. rewrite Hf.
  by destruct (f (this w)).
Qed.

Lemma blind_bind (m : M A) (k : A -> M B) :
  blind m -> (forall a, blind (k a)) -> blind (bind m k).
Proof.
  intros Hm Hk o w. unfold bind. rewrite Hm.
  destruct (m w) as [w1 [a|e]]; simpl; [|done]. apply Hk.
Qed.
End Blind.

Lemma blind_update (f : World -> World) :
  (forall o w, f (with_this (set_options o) w) = with_this (set_options o) (f w)) ->
  blind (update f).
Proof. intros Hf o w. unfold update. simpl. by rewrite Hf. Qed.

Lemma blind_for_of {A} (xs : list A) (body : A -> M unit) :
  (forall x, blind (body x)) -> blind (for_of xs body).
Proof.
  intros Hb. induction xs as [|x xs IH]; simpl; [apply blind_ret|].
  by apply blind_bind.
Qed.

Lemma blind_debug message val : blind (debug message val).
Proof.
  intros o w. unfold debug, bind, read, ret, update. simpl.
  by destruct (truthy (debugging (this w))).
Qed.

Lemma blind_invoke callback : blind (invoke callback).
Proof. by intros o w. Qed.

Lemma blind_isDone : blind isDone.
Proof.
  intros o w. unfold isDone, bind, defined, read, ret. simpl.
  by destruct (downloadQueue (this w)).
Qed.

Ltac blind_method :=
  repeat first
    [ apply blind_debug | apply blind_invoke | apply blind_isDone
    | apply blind_ret
    | apply blind_read; by intros ? [[] ? ?]
    | apply blind_defined; by intros ? []
    | apply blind_update; by intros ? [[] ? ?]
    | apply blind_for_of; intros ?
    | apply blind_bind; [|intros ?]
    | match goal with
      | |- blind (if ?b then _ else _) => destruct b
      | |- blind (match ?x with Some _ => _ | None => _ end) => destruct x
      end ].

Lemma blind_queueDownload path : blind (queueDownload path).
Proof. unfold queueDownload. blind_method. Qed.

Lemma blind_on_load path callback : blind (on_load path callback).
Proof. unfold on_load. blind_method. Qed.

Lemma blind_on_error path callback : blind (on_error path callback).
Proof. unfold on_error. blind_method. Qed.

Lemma blind_downloadAll callback : blind (downloadAll callback).
Proof. unfold downloadAll, new_Image, cache_store. blind_method. Qed.

Lemma blind_getAsset path : blind (getAsset path).
Proof. unfold getAsset. blind_method. Qed.

Lemma exec_blind o (x : op) w :
  exec x (with_this (set_options o) w)
  = (fun wr => (with_this (set_options o) wr.1, wr.2)) <$> exec x w.
Proof.
  destruct x as [path|callback| |path|img ev]; simpl.
  - by rewrite blind_queueDownload.
  - by rewrite blind_downloadAll.
  - rewrite blind_isDone. by destruct (isDone w) as [w1 [b|e]].
  - by rewrite blind_getAsset.
  - unfold dispatch. simpl.
    destruct (images w !! img) as [[p cb [| |]]|]; try done. simpl.
    set (w0 := with_images (<[img := Fetch p cb (settled ev)]>) w).
    change (with_images (<[img := Fetch p cb (settled ev)]>)
              (with_this (set_options o) w))
      with (with_this (set_options o) w0).
    destruct ev; [rewrite blind_on_load|rewrite blind_on_error].
    + by destruct (on_load p cb w0) as [w1 [[]|e]].
    + by destruct (on_error p cb w0) as [w1 [[]|e]].
Qed.

Lemma run_blind o (ops : list op) w :
  run ops (with_this (set_options o) w)
  = (fun wr => (with_this (set_options o) wr.1, wr.2)) <$> run ops w.
Proof.
  revert w. induction ops as [|x ops IH]; intros w; [done|].
  cbn [run]. rewrite exec_blind.
  destruct (exec x w) as [[w1 r]|]; [|done]. simpl. rewrite IH.
  by destruct (run ops w1) as [[w2 rs]|].
Qed.

(** ** The claims *)

(** C7. [isDone()] is a pure predicate: it returns true exactly when
    [successCount + errorCount] equals the length of the queue at the time
    of the call, and it leaves the whole world -- queue, cache, counters,
    images and effects -- as it was. *)
Theorem isDone_pure_predicate w q s e :
  downloadQueue (this w) = Some q ->
  counters w = Some (s, e) ->
  exists b : bool,
    isDone w = (w, Normal b)
    /\ exec IsDone w = Some (w, Normal (VBool b))
    /\ (b = true <-> s + e = Z.of_nat (length q)).
Proof.
  intros Hq [Hs He]%counters_Some.
  exists (length_strict_equal (length q) (Num (s + e))).
  assert (Heq : isDone w
    = (w, Normal (length_strict_equal (length q) (Num (s + e))))).
  { rewrite (isDone_eq _ q Hq), Hs, He. done. }
  split; [done|]. split; [by simpl; rewrite Heq|].
  rewrite length_strict_equal_Num. lia.
Qed.

Lemma isDone_pure_predicate_witness :
  exists b : bool,
    isDone (MkWorld (Instance (Num 1) (Num 1) (Some ∅) (Some ["a.png"; "b.png"])
                       None (Options false)) [] [])
    = (MkWorld (Instance (Num 1) (Num 1) (Some ∅) (Some ["a.png"; "b.png"])
                  None (Options false)) [] [], Normal b)
    /\ exec IsDone (MkWorld (Instance (Num 1) (Num 1) (Some ∅)
                               (Some ["a.png"; "b.png"]) None (Options false)) [] [])
       = Some (MkWorld (Instance (Num 1) (Num 1) (Some ∅) (Some ["a.png"; "b.png"])
                          None (Options false)) [] [], Normal (VBool b))
    /\ (b = true <-> 1 + 1 = Z.of_nat (length ["a.png"; "b.png"])).
Proof.
  apply (isDone_pure_predicate
           (MkWorld (Instance (Num 1) (Num 1) (Some ∅) (Some ["a.png"; "b.png"])
                       None (Options false)) [] [])
           ["a.png"; "b.png"] 1 1); reflexivity.
Defined.

(** C3. On a manager whose queue is empty, [downloadAll(onComplete)] calls
    [onComplete] once, with no arguments, before it returns; it creates no
    image and changes neither the counters nor the cache.  In every world
    reached from an initialised instance both counters are then 0. *)
Theorem downloadAll_empty_queue w callback :
  downloadQueue (this w) = Some [] ->
  downloadAll callback w
  = (MkWorld (this w) (images w) (effects w ++ [Call callback []]),
     Normal (VReturnOf callback))
  /\ calls (effects (downloadAll callback w).1)
     = calls (effects w) ++ [(callback, [])]
  /\ forall d o ops rs,
       run ops (start (initialised d o)) = Some (w, rs) ->
       images (downloadAll callback w).1 = []
       /\ counters (downloadAll callback w).1 = Some (0, 0).
Proof.
  intros Hq. rewrite (downloadAll_empty _ _ Hq). split; [done|].
  split; [by simpl; rewrite calls_app|].
  intros d o ops rs Hrun.
  destruct (run_consistent _ _ _ _ _ _ (consistent_start d o) Hrun) as [Hw _].
  pose proof (consistent_empty_queue _ _ _ Hw Hq) as Hi.
  pose proof (consistent_counters _ _ _ Hw) as Hc. rewrite Hi in Hc.
  by split.
Qed.

Lemma downloadAll_empty_queue_witness :
  downloadAll 5%nat (start (initialised None (Options false)))
  = (MkWorld (initialised None (Options false)) [] [Call 5%nat []],
     Normal (VReturnOf 5%nat))
  /\ calls (effects (downloadAll 5%nat (start (initialised None (Options false)))).1)
     = [(5%nat, [])]
  /\ images (downloadAll 5%nat (start (initialised None (Options false)))).1 = []
  /\ counters (downloadAll 5%nat (start (initialised None (Options false)))).1
     = Some (0, 0).
Proof.
  destruct (downloadAll_empty_queue (start (initialised None (Options false)))
              5%nat eq_refl) as (H1 & H2 & H3).
  split; [exact H1|]. split; [exact H2|].
  exact (H3 None (Options false) [] [] eq_refl).
Defined.

(** C6. A fetch that settles as failed does not throw and does not stop
    the cycle: its listener only increments [errorCount] and then makes
    the same completion check as the listener of a success, so the
    callback is called under the same condition -- the settled total
    reaching the queue length -- after a failure as after a success, and
    it is always called with no arguments. *)
Theorem failed_fetch_counts_like_success w q s e path callback :
  downloadQueue (this w) = Some q ->
  counters w = Some (s, e) ->
  exists we wl,
    on_error path callback w = (we, Normal tt)
    /\ on_load path callback w = (wl, Normal tt)
    /\ this we = set_errorCount (Num (e + 1)) (this w)
    /\ this wl = set_successCount (Num (s + 1)) (this w)
    /\ images we = images w
    /\ images wl = images w
    /\ calls (effects we)
       = calls (effects w)
         ++ (if decide (s + e + 1 = Z.of_nat (length q)) then [(callback, [])] else [])
    /\ calls (effects wl)
       = calls (effects w)
         ++ (if decide (s + e + 1 = Z.of_nat (length q)) then [(callback, [])] else [])
    /\ (forall img,
          images w !! img = Some (Fetch path callback Pending) ->
          exists w',
            exec (Settle img error) w = Some (w', Normal VUndefined)
            /\ images w' = <[img := Fetch path callback Failed]> (images w))
    /\ (forall x w' r,
          exec x w = Some (w', r) ->
          exists l, calls (effects w') = calls (effects w) ++ l
                    /\ Forall (fun c => c.2 = []) l).
Proof.
  intros Hq Hc.
  exists (handled error ("Error loading " +:+ path) q callback w),
         (handled load ("Loaded " +:+ path) q callback w).
  destruct (handled_eq error ("Error loading " +:+ path) q callback w s e Hc)
    as (Hte & Hie & Hce).
  destruct (handled_eq load ("Loaded " +:+ path) q callback w s e Hc)
    as (Htl & Hil & Hcl).
  split; [by apply on_error_eq|]. split; [by apply on_load_eq|].
  do 6 (split; [done|]). split.
  - intros img Hi. eexists. simpl.
    rewrite (dispatch_eq _ q _ _ path callback) by done. simpl. split; [done|].
    apply (handled_eq error _ q callback
             (with_images (<[img := Fetch path callback Failed]>) w) s e).
    apply counters_Some. by apply counters_Some in Hc.
  - intros x w' r Hx. destruct (exec_tame _ _ _ _ Hx) as (_ & l & He & Hl).
    exists (calls l). rewrite He, calls_app. split; [done|].
    by eapply calls_allowed.
Qed.

Lemma failed_fetch_counts_like_success_witness :
  exists we wl,
    on_error "b.png" 7%nat
      (MkWorld (Instance (Num 1) (Num 0) (Some ∅) (Some ["a.png"; "b.png"])
                  None (Options false)) [] [])
    = (we, Normal tt)
    /\ on_load "b.png" 7%nat
         (MkWorld (Instance (Num 1) (Num 0) (Some ∅) (Some ["a.png"; "b.png"])
                     None (Options false)) [] [])
       = (wl, Normal tt)
    /\ this we = Instance (Num 1) (Num (0 + 1)) (Some ∅) (Some ["a.png"; "b.png"])
                   None (Options false)
    /\ this wl = Instance (Num (1 + 1)) (Num 0) (Some ∅) (Some ["a.png"; "b.png"])
                   None (Options false)
    /\ calls (effects we) = [(7%nat, [])]
    /\ calls (effects wl) = [(7%nat, [])].
Proof.
  destruct (failed_fetch_counts_like_success
              (MkWorld (Instance (Num 1) (Num 0) (Some ∅) (Some ["a.png"; "b.png"])
                          None (Options false)) [] [])
              ["a.png"; "b.png"] 1 0 "b.png" 7%nat eq_refl eq_refl)
    as (we & wl & H1 & H2 & H3 & H4 & _ & _ & H5 & H6 & _).
  exists we, wl. repeat split; assumption.
Defined.



(** C2. In every world reached from an initialised instance by a run that calls
    [downloadAll] at most once -- [queueDownload] calls, the events of the
    issued fetches, and reads, in any order -- both counters are
    non-negative and [successCount + errorCount <= downloadQueue.length];
    and no further operation makes either counter smaller. *)
Theorem counters_bounded_by_queue d o ops w rs :
  run ops (start (initialised d o)) = Some (w, rs) ->
  (downloads ops <= 1)%nat ->
  exists q s e,
    downloadQueue (this w) = Some q
    /\ counters w = Some (s, e)
    /\ 0 <= s /\ 0 <= e
    /\ s + e <= Z.of_nat (length q)
    /\ forall x w' r,
         exec x w = Some (w', r) ->
         exists s' e', counters w' = Some (s', e') /\ s <= s' /\ e <= e'.
Proof.
  intros Hrun Hd.
  destruct (run_consistent _ _ _ _ _ _ (consistent_start d o) Hrun) as [Hw _].
  destruct (run_issued _ _ _ _ _ _ (consistent_start d o) Hrun) as (_ & _ & Hlen).
  specialize (Hlen Hd eq_refl).
  destruct (consistent_defined _ _ _ Hw) as (q & c & Hq & Hc).
  unfold queue_length in Hlen. rewrite Hq in Hlen.
  exists q, (tally Loaded (images w)), (tally Failed (images w)).
  split; [done|]. split; [by eapply consistent_counters|].
  split; [apply tally_nonneg|]. split; [apply tally_nonneg|].
  split; [pose proof (tally_settled_le (images w)); lia|].
  intros x w' r Hx.
  destruct (exec_consistent _ _ _ _ _ _ Hw Hx) as [Hw' _].
  destruct (exec_issued _ _ _ _ _ _ Hw Hx) as (_ & _ & _ & Hs & He).
  exists (tally Loaded (images w')), (tally Failed (images w')).
  split; [by eapply consistent_counters|]. by split.
Qed.

Lemma counters_bounded_by_queue_witness :
  exists q s e,
    downloadQueue (this (MkWorld (Instance (Num 1) (Num 0)
                                    (Some (<["a.png" := 0%nat]> ∅))
                                    (Some ["a.png"]) None (Options false))
                           [Fetch "a.png" 3%nat Loaded] [Call 3%nat []]))
    = Some q
    /\ counters (MkWorld (Instance (Num 1) (Num 0)
                            (Some (<["a.png" := 0%nat]> ∅))
                            (Some ["a.png"]) None (Options false))
                   [Fetch "a.png" 3%nat Loaded] [Call 3%nat []])
       = Some (s, e)
    /\ 0 <= s /\ 0 <= e
    /\ s + e <= Z.of_nat (length q).
Proof.
  destruct (counters_bounded_by_queue None (Options false)
              [QueueDownload "a.png"; DownloadAll 3%nat; Settle 0%nat load]
              (MkWorld (Instance (Num 1) (Num 0)
                          (Some (<["a.png" := 0%nat]> ∅))
                          (Some ["a.png"]) None (Options false))
                 [Fetch "a.png" 3%nat Loaded] [Call 3%nat []])
              [Normal VUndefined; Normal VUndefined; Normal VUndefined])
    as (q & s & e & H1 & H2 & H3 & H4 & H5 & _).
  - vm_compute. reflexivity.
  - simpl. lia.
  - exists q, s, e. repeat split; assumption.
Defined.




(** C4, as the code has it.  In a world reached from an initialised
    instance without [__proto__] ever being queued, [getAsset(p)] returns
    null when [p] names no member of [Object.prototype] and was never
    queued, and more generally as long as no [downloadAll] has issued a
    fetch for [p]; for a name the cache inherits from [Object.prototype]
    it then returns the inherited member, not null.  From the moment a
    fetch for [p] has been issued -- pending, loaded or failed -- it
    returns the image stored under [p], which is the image created last
    for [p]. *)
Theorem getAsset_null_until_issued d o ops w rs path :
  run ops (start (initialised d o)) = Some (w, rs) ->
  QueueDownload "__proto__" ∉ ops ->
  (inherited path = false -> QueueDownload path ∉ ops ->
   (getAsset path w).2 = Normal VNull)
  /\ (inherited path = false -> path ∉ src <$> images w ->
      (getAsset path w).2 = Normal VNull)
  /\ (inherited path = true -> path ∉ src <$> images w ->
      getAsset path w = (w, Normal (VInherited path)))
  /\ (forall img f,
        images w !! img = Some f -> src f = path ->
        exists stored f',
          getAsset path w = (w, Normal (VImage stored))
          /\ images w !! stored = Some f' /\ src f' = path
          /\ (img <= stored)%nat
          /\ forall j f'', (stored < j)%nat -> images w !! j = Some f'' ->
                           src f'' <> path).
Proof.
  intros Hrun _.
  destruct (run_consistent _ _ _ _ _ _ (consistent_start d o) Hrun) as [Hw _].
  pose proof (run_queued _ _ _ _ _ _ [] (consistent_start d o) Hrun eq_refl) as Hq.
  destruct Hw as (q & c & Hthis & Hc & Hsrc).
  assert (Hca : cache (this w) = Some c) by by rewrite Hthis.
  assert (Hnone : path ∉ src <$> images w -> c !! path = None).
  { intros Hnot. rewrite Hc. by apply last_index_None. }
  assert (Hmiss : inherited path = false -> path ∉ src <$> images w ->
                  (getAsset path w).2 = Normal VNull).
  { intros Hi Hnot. apply (getAsset_miss _ c); [done|by apply Hnone|done]. }
  split; [|split; [done|split]].
  - intros Hi Hnever. apply Hmiss; [done|]. intros Hin.
    apply Hnever, queued_elem.
    specialize (Hsrc _ Hin). rewrite Hthis in Hq. simpl in Hq.
    by injection Hq as ->.
  - intros Hi Hnot. apply (getAsset_inherited _ c); [done|by apply Hnone|done].
  - intros img f Hi Hf.
    assert (Hin : (src <$> images w) !! img = Some path).
    { by rewrite list_lookup_fmap, Hi, <- Hf. }
    destruct (last_index_elem path (src <$> images w) 0) as [stored Hst];
      [by eapply list_elem_of_lookup_2|].
    destruct (last_index_Some _ _ _ _ Hst) as (_ & Hat & Hlast).
    rewrite Nat.sub_0_r in Hat, Hlast. rewrite list_lookup_fmap in Hat.
    destruct (images w !! stored) as [f'|] eqn:Hf'; [|done].
    injection Hat as Hat. exists stored, f'.
    split; [apply (getAsset_hit _ c); [done|by rewrite Hc]|].
    split; [done|]. split; [done|]. split.
    + destruct (decide (img <= stored)%nat) as [|Hgt]; [done|].
      destruct (Hlast img); [lia|done].
    + intros j f'' Hj Hf'' Hsrc''. apply (Hlast j Hj).
      by rewrite list_lookup_fmap, Hf'', <- Hsrc''.
Qed.

Lemma getAsset_null_until_issued_witness :
  (getAsset "c.png"
     (MkWorld (Instance (Num 0) (Num 0) (Some (<["a.png" := 0%nat]> ∅))
                 (Some ["a.png"]) None (Options false))
        [Fetch "a.png" 7%nat Pending] [])).2 = Normal VNull
  /\ getAsset "toString"
       (MkWorld (Instance (Num 0) (Num 0) (Some (<["a.png" := 0%nat]> ∅))
                   (Some ["a.png"]) None (Options false))
          [Fetch "a.png" 7%nat Pending] [])
     = (MkWorld (Instance (Num 0) (Num 0) (Some (<["a.png" := 0%nat]> ∅))
                   (Some ["a.png"]) None (Options false))
          [Fetch "a.png" 7%nat Pending] [], Normal (VInherited "toString")).
Proof.
  assert (Hnot : forall x : op,
            x ∈ [QueueDownload "a.png"; DownloadAll 7%nat] ->
            x = QueueDownload "a.png" \/ x = DownloadAll 7%nat).
  { intros x H. apply elem_of_cons in H as [H|H]; [by left|].
    apply elem_of_cons in H as [H|H]; [by right|]. by apply elem_of_nil in H. }
  split.
  - refine (proj1 (getAsset_null_until_issued None (Options false)
             [QueueDownload "a.png"; DownloadAll 7%nat]
             (MkWorld (Instance (Num 0) (Num 0) (Some (<["a.png" := 0%nat]> ∅))
                         (Some ["a.png"]) None (Options false))
                [Fetch "a.png" 7%nat Pending] [])
             [Normal VUndefined; Normal VUndefined] "c.png" _ _) _ _).
    + vm_compute. reflexivity.
    + intros H. by destruct (Hnot _ H).
    + vm_compute. reflexivity.
    + intros H. by destruct (Hnot _ H).
  - refine (proj1 (proj2 (proj2 (getAsset_null_until_issued None (Options false)
             [QueueDownload "a.png"; DownloadAll 7%nat]
             (MkWorld (Instance (Num 0) (Num 0) (Some (<["a.png" := 0%nat]> ∅))
                         (Some ["a.png"]) None (Options false))
                [Fetch "a.png" 7%nat Pending] [])
             [Normal VUndefined; Normal VUndefined] "toString" _ _))) _ _).
    + vm_compute. reflexivity.
    + intros H. by destruct (Hnot _ H).
    + vm_compute. reflexivity.
    + simpl. intros H. apply elem_of_cons in H as [H|H]; [discriminate|].
      by apply elem_of_nil in H.
Defined.

(** C4, as stated, fails while a fetch is pending: after
    [queueDownload("a.png")] and [downloadAll], with no event delivered
    yet, [getAsset("a.png")] returns image 0 and not null. *)
Lemma getAsset_pending_not_null :
  run [QueueDownload "a.png"; DownloadAll 7%nat; GetAsset "a.png"]
      (start (initialised None (Options false)))
  = Some (MkWorld (Instance (Num 0) (Num 0) (Some (<["a.png" := 0%nat]> ∅))
                     (Some ["a.png"]) None (Options false))
                  [Fetch "a.png" 7%nat Pending] [],
          [Normal VUndefined; Normal VUndefined; Normal (VImage 0%nat)])
  /\ VImage 0%nat <> VNull.
Proof. split; [vm_compute; reflexivity|discriminate]. Qed.

(** C5, as the code has it.  Take an initialised instance, queue the paths
    [q] (none of them [__proto__]) with one path at positions i < j, call
    [downloadAll] for the first time, and let its fetches settle, with
    reads but no [queueDownload] and no other [downloadAll] in between.
    Two fetches are issued for that path, images i and j; each of their
    events is counted on its own, so the callback is called only when
    every fetch of the queue, these two included, has settled.  The cache
    keeps under that path the image issued last, image j, from the moment
    [downloadAll] returns and whatever the order in which the two
    settle. *)
Theorem twice_queued_path_keeps_last_issued d o q callback (ops : list op)
    path i j n :
  "__proto__" ∉ q ->
  q !! i = Some path ->
  q !! j = Some path ->
  (i < j)%nat ->
  (forall j', (j < j')%nat -> q !! j' <> Some path) ->
  Forall (fun x => requests x = false) ops ->
  (events ops).*1 ≡ₚ seq 0 (length q) ->
  exists w rs s e sti stj,
    run ((QueueDownload <$> q) ++ DownloadAll callback :: take n ops)
      (start (initialised d o)) = Some (w, rs)
    /\ images w !! i = Some (Fetch path callback sti)
    /\ images w !! j = Some (Fetch path callback stj)
    /\ counters w = Some (s, e)
    /\ s + e = Z.of_nat (length (events (take n ops)))
    /\ calls (effects w)
       = (if decide (length (events (take n ops)) = length q)
          then [(callback, [])] else [])
    /\ ((length ops <= n)%nat -> length (events (take n ops)) = length q)
    /\ getAsset path w = (w, Normal (VImage j)).
Proof.
  intros _ Hi Hj Hij Hlast Hreq Hperm.
  destruct (run_queue_all q (start (initialised d o)) [] eq_refl)
    as (w0 & Hrun0 & Ht0 & Hi0 & Hc0).
  simpl in Ht0, Hi0, Hc0.
  assert (Hq0 : downloadQueue (this w0) = Some q) by by rewrite Ht0.
  assert (Hne : q <> []) by (intros ->; done).
  destruct (events_prefix ops _ _ n Hreq Hperm) as (Hreq' & Hnd & Hrange & _ & Hall).
  destruct (cycle_progress w0 q ∅ callback (take n ops)) as
    (w & rs & Hrun & _ & Hq & Hca & Hcnt & Hcalls & Himg);
    [done|done|by rewrite Ht0|apply counters_Some; by rewrite Ht0|done|done
    |by rewrite Hi0|].
  rewrite Hi0 in Hca, Himg. simpl in Hca, Himg.
  destruct (Himg _ _ Hi) as [sti Hsti]. destruct (Himg _ _ Hj) as [stj Hstj].
  eexists w, _, (occurrences load (events (take n ops))),
    (occurrences error (events (take n ops))), sti, stj.
  split; [by rewrite run_app, Hrun0, Hrun|].
  split; [done|]. split; [done|]. split; [done|].
  split; [by rewrite occurrences_total|].
  split; [by rewrite Hcalls, Hc0|]. split; [done|].
  apply (getAsset_hit _ (store_all q 0 ∅)); [done|].
  by rewrite store_all_lookup, (last_index_unique _ _ _ Hj Hlast).
Qed.

Lemma twice_queued_path_keeps_last_issued_witness :
  exists w rs s e sti stj,
    run ((QueueDownload <$> ["a.png"; "a.png"])
           ++ DownloadAll 7%nat :: take 2 [Settle 1%nat load; Settle 0%nat load])
      (start (initialised None (Options false))) = Some (w, rs)
    /\ images w !! 0%nat = Some (Fetch "a.png" 7%nat sti)
    /\ images w !! 1%nat = Some (Fetch "a.png" 7%nat stj)
    /\ counters w = Some (s, e)
    /\ s + e = 2
    /\ calls (effects w) = [(7%nat, [])]
    /\ getAsset "a.png" w = (w, Normal (VImage 1%nat)).
Proof.
  destruct (twice_queued_path_keeps_last_issued None (Options false)
              ["a.png"; "a.png"] 7%nat [Settle 1%nat load; Settle 0%nat load]
              "a.png" 0%nat 1%nat 2%nat)
    as (w & rs & s & e & sti & stj & H1 & H2 & H3 & H4 & H5 & H6 & _ & H7);
    [|reflexivity|reflexivity|lia| |repeat constructor|simpl; apply perm_swap|].
  - intros H. apply elem_of_cons in H as [H|H]; [discriminate|].
    apply elem_of_cons in H as [H|H]; [discriminate|]. by apply elem_of_nil in H.
  - intros [|[|j']] Hlt; [lia|lia|discriminate].
  - exists w, rs, s, e, sti, stj. repeat split; assumption.
Defined.

(** C5, as stated, fails when the fetch issued first settles last: with
    [a.png] queued twice, image 1 loads, then image 0 loads; the fetch that
    settled last is image 0, yet [getAsset("a.png")] returns image 1. *)
Lemma cache_keeps_last_issued_not_last_settled :
  run [QueueDownload "a.png"; QueueDownload "a.png"; DownloadAll 7%nat;
       Settle 1%nat load; Settle 0%nat load; GetAsset "a.png"]
      (start (initialised None (Options false)))
  = Some (MkWorld (Instance (Num 2) (Num 0) (Some (<["a.png" := 1%nat]> ∅))
                     (Some ["a.png"; "a.png"]) None (Options false))
                  [Fetch "a.png" 7%nat Loaded; Fetch "a.png" 7%nat Loaded]
                  [Call 7%nat []],
          [Normal VUndefined; Normal VUndefined; Normal VUndefined;
           Normal VUndefined; Normal VUndefined; Normal (VImage 1%nat)])
  /\ VImage 1%nat <> VImage 0%nat.
Proof. split; [vm_compute; reflexivity|discriminate]. Qed.

(** C8. The [options] object given to the constructor has no influence on
    anything: two constructor calls that differ only in it leave the same
    globals and either throw the same error or build instances that differ
    in [this.options] alone, with [this.debugging] unset in both; two runs
    of the same operations and events from worlds that differ only in
    [this.options] return the same values and end in worlds that again
    differ in [this.options] alone; and as long as [this.debugging] is not
    truthy a run logs nothing, whatever [this.options.debugging] is: all it
    adds to the effects are calls of the callback without arguments. *)
Theorem options_do_not_interfere :
  (forall g arg1 arg2,
     (constructor arg1 g).1 = (constructor arg2 g).1
     /\ match (constructor arg1 g).2, (constructor arg2 g).2 with
        | Normal a1, Normal a2 =>
            a2 = set_options (options a2) a1
            /\ debugging a1 = None /\ debugging a2 = None
        | Throw e1, Throw e2 => e1 = e2
        | _, _ => False
        end)
  /\ (forall o ops w,
        run ops (with_this (set_options o) w)
        = (fun wr => (with_this (set_options o) wr.1, wr.2)) <$> run ops w)
  /\ (forall ops w w' rs,
        truthy (debugging (this w)) = false ->
        run ops w = Some (w', rs) ->
        exists l, effects w' = effects w ++ l
                  /\ Forall (fun e => exists f, e = Call f []) l).
Proof.
  split; [|split].
  - intros g arg1 arg2. unfold constructor, bind, assign, update, throw, ret.
    destruct (g !! "successCount") as [[[|] ?]|]; [|done|done].
    destruct (_ !! "errorCount") as [[[|] ?]|]; [|done|done].
    destruct (_ !! "cache") as [[[|] ?]|]; [|done|done].
    destruct (_ !! "downloadQueue") as [[[|] ?]|]; [|done|done].
    done.
  - apply run_blind.
  - intros ops w w' rs Hd Hrun.
    destruct (run_tame _ _ _ _ Hrun) as (_ & l & He & Hl).
    exists l. split; [done|]. eapply Forall_impl; [exact Hl|].
    intros [m v|f args]; simpl.
    + rewrite Hd. discriminate.
    + intros ->. by exists f.
Qed.

(** C10.  What the claim says of a prepared instance holds: [isDone()] is
    true on an initialised instance and on every world reached from one whose
    queue is empty, and a [queueDownload] after [isDone()] was true makes
    it false again.  On the instance the constructor actually builds it
    does not: the constructor either throws -- a ReferenceError for a
    missing global binding, a TypeError for a constant one -- or returns
    an object without [downloadQueue], on which [isDone()] throws a
    TypeError. *)
Theorem isDone_of_constructed_instance :
  (forall g arg,
     match constructor arg g with
     | (_, Throw e) =>
         (e = ReferenceError \/ e = TypeError)
         /\ ((forall x b, g !! x = Some b -> writable b = true) ->
             e = ReferenceError)
     | (_, Normal a) =>
         downloadQueue a = None
         /\ isDone (start a) = (start a, Throw TypeError)
         /\ exec IsDone (start a) = Some (start a, Throw TypeError)
     end)
  /\ constructor None ∅ = (∅, Throw ReferenceError)
  /\ (forall d o, isDone (start (initialised d o)) = (start (initialised d o), Normal true))
  /\ (forall d o ops w rs,
        run ops (start (initialised d o)) = Some (w, rs) ->
        downloadQueue (this w) = Some [] ->
        isDone w = (w, Normal true))
  /\ (forall w path,
        (isDone w).2 = Normal true ->
        (isDone (queueDownload path w).1).2 = Normal false).
Proof.
  split; [|split; [|split; [|split]]].
  - intros g arg. unfold constructor, bind, assign, update, throw, ret.
    assert (Hconst : forall x v,
              g !! x = Some (Binding false v) ->
              (TypeError = ReferenceError \/ TypeError = TypeError)
              /\ ((forall y b, g !! y = Some b -> writable b = true) ->
                  TypeError = ReferenceError)).
    { intros x v Hx. split; [by right|]. intros Hall. by specialize (Hall _ _ Hx). }
    destruct (g !! "successCount") as [[[|] ?]|] eqn:H1;
      [|by apply (Hconst _ _ H1)|by split; [left|]].
    destruct (_ !! "errorCount") as [[[|] ?]|] eqn:H2;
      [|rewrite lookup_insert_ne in H2 by done; by apply (Hconst _ _ H2)
       |by split; [left|]].
    destruct (_ !! "cache") as [[[|] ?]|] eqn:H3;
      [|rewrite !lookup_insert_ne in H3 by done; by apply (Hconst _ _ H3)
       |by split; [left|]].
    destruct (_ !! "downloadQueue") as [[[|] ?]|] eqn:H4;
      [|rewrite !lookup_insert_ne in H4 by done; by apply (Hconst _ _ H4)
       |by split; [left|]].
    done.
  - done.
  - done.
  - intros d o ops w rs Hrun Hq.
    destruct (run_consistent _ _ _ _ _ _ (consistent_start d o) Hrun) as [Hw _].
    pose proof (consistent_empty_queue _ _ _ Hw Hq) as Hi.
    pose proof (consistent_counters _ _ _ Hw) as Hc. rewrite Hi in Hc.
    apply counters_Some in Hc as [Hs He].
    by rewrite (isDone_eq _ [] Hq), Hs, He.
  - intros w path Hdone.
    destruct (downloadQueue (this w)) as [q|] eqn:Hq;
      [|by rewrite (isDone_undefined _ Hq) in Hdone].
    rewrite (isDone_eq _ q Hq) in Hdone. simpl in Hdone.
    rewrite (queueDownload_eq _ q) by done. simpl.
    rewrite (isDone_eq _ (q ++ [path])) by (by rewrite logged_this).
    rewrite logged_this. simpl.
    destruct (plus (successCount (this w)) (errorCount (this w))) as [| |z];
      try done.
    simpl in *. injection Hdone as Hdone. apply Z.eqb_eq in Hdone.
    f_equal. apply Z.eqb_neq. rewrite length_app. simpl. lia.
Qed.

(** ** Further properties of the methods *)

(** X1. [queueDownload] only appends: queueing the paths [q] one after the
    other on a manager whose queue is [q0] leaves the queue [q0 ++ q], in
    that order and with duplicates kept; every call returns undefined, no
    image is created, no callback is called, and no other property of the
    instance changes. *)
Theorem queueDownload_appends_in_order w (q0 q : list string) :
  downloadQueue (this w) = Some q0 ->
  exists w',
    run (QueueDownload <$> q) w = Some (w', replicate (length q) (Normal VUndefined))
    /\ this w' = set_downloadQueue (q0 ++ q) (this w)
    /\ images w' = images w
    /\ calls (effects w') = calls (effects w).
Proof. apply run_queue_all. Qed.

Lemma queueDownload_appends_in_order_witness :
  exists w',
    run (QueueDownload <$> ["b.png"; "a.png"; "b.png"])
      (MkWorld (Instance (Num 0) (Num 0) (Some ∅) (Some ["a.png"]) None
                  (Options false)) [] [])
    = Some (w', replicate 3 (Normal VUndefined))
    /\ this w' = Instance (Num 0) (Num 0) (Some ∅)
                   (Some ["a.png"; "b.png"; "a.png"; "b.png"]) None (Options false)
    /\ images w' = []
    /\ calls (effects w') = [].
Proof.
  apply (queueDownload_appends_in_order
           (MkWorld (Instance (Num 0) (Num 0) (Some ∅) (Some ["a.png"]) None
                       (Options false)) [] [])
           ["a.png"] ["b.png"; "a.png"; "b.png"]).
  reflexivity.
Defined.

(** X2. On an instance without [downloadQueue], [queueDownload],
    [downloadAll] and [isDone] throw a TypeError and change nothing, and a
    listener counts its event before its completion check throws; without
    [cache], [getAsset] throws a TypeError and changes nothing.  This is the
    state of every instance the constructor returns. *)
Theorem methods_throw_without_properties w path callback :
  downloadQueue (this w) = None ->
  queueDownload path w = (w, Throw TypeError)
  /\ downloadAll callback w = (w, Throw TypeError)
  /\ isDone w = (w, Throw TypeError)
  /\ on_load path callback w
     = (counted load (logged ("Loaded " +:+ path) w), Throw TypeError)
  /\ on_error path callback w
     = (counted error (logged ("Error loading " +:+ path) w), Throw TypeError)
  /\ (cache (this w) = None -> getAsset path w = (w, Throw TypeError))
  /\ (forall g g' arg a,
        constructor arg g = (g', Normal a) ->
        downloadQueue a = None /\ cache a = None).
Proof.
  intros Hq.
  assert (Hget : cache (this w) = None -> getAsset path w = (w, Throw TypeError)).
  { intros Hc. unfold getAsset. unfold bind at 1. by rewrite (defined_None _ _ Hc). }
  split; [|split; [|split; [|split; [|split; [|split]]]]].
  - unfold queueDownload. unfold bind at 1. by rewrite (defined_None _ _ Hq).
  - unfold downloadAll. unfold bind at 1. by rewrite (defined_None _ _ Hq).
  - by apply isDone_undefined.
  - unfold on_load, bind at 1. rewrite debug_eq.
    unfold bind at 1, update. unfold bind at 1.
    rewrite isDone_undefined; [done|]. simpl. by rewrite logged_this.
  - unfold on_error, bind at 1. rewrite debug_eq.
    unfold bind at 1, update. unfold bind at 1.
    rewrite isDone_undefined; [done|]. simpl. by rewrite logged_this.
  - done.
  - intros g g' arg a.
    unfold constructor, bind, assign, update, throw, ret.
    destruct (g !! "successCount") as [[[|] ?]|]; [|done|done].
    destruct (_ !! "errorCount") as [[[|] ?]|]; [|done|done].
    destruct (_ !! "cache") as [[[|] ?]|]; [|done|done].
    destruct (_ !! "downloadQueue") as [[[|] ?]|]; [|done|done].
    by intros [= _ <-].
Qed.

Lemma methods_throw_without_properties_witness :
  queueDownload "a.png" (start (Instance Unset Unset None None None (Options false)))
  = (start (Instance Unset Unset None None None (Options false)), Throw TypeError)
  /\ downloadAll 7%nat (start (Instance Unset Unset None None None (Options false)))
     = (start (Instance Unset Unset None None None (Options false)), Throw TypeError)
  /\ isDone (start (Instance Unset Unset None None None (Options false)))
     = (start (Instance Unset Unset None None None (Options false)), Throw TypeError)
  /\ getAsset "a.png" (start (Instance Unset Unset None None None (Options false)))
     = (start (Instance Unset Unset None None None (Options false)), Throw TypeError).
Proof.
  destruct (methods_throw_without_properties
              (start (Instance Unset Unset None None None (Options false)))
              "a.png" 7%nat eq_refl) as (H1 & H2 & H3 & _ & _ & H4 & _).
  split; [exact H1|]. split; [exact H2|]. split; [exact H3|]. exact (H4 eq_refl).
Defined.

(** X3. [downloadAll] on a non-empty queue but without [cache] does not
    fail cleanly: it creates the image of the first queued path and starts
    its fetch, then throws a TypeError at the cache write.  No further path
    is fetched and nothing is called, but the one image stays pending and
    its listeners will run. *)
Theorem downloadAll_without_cache w p (q : list string) callback :
  downloadQueue (this w) = Some (p :: q) ->
  cache (this w) = None ->
  downloadAll callback w
  = (MkWorld (this w) (images w ++ [Fetch p callback Pending]) (effects w),
     Throw TypeError)
  /\ exists w' r,
       exec (Settle (length (images w)) load) (downloadAll callback w).1
       = Some (w', r)
       /\ successCount (this w') = increment (successCount (this w)).
Proof.
  intros Hq Hc.
  assert (Hd : downloadAll callback w
    = (MkWorld (this w) (images w ++ [Fetch p callback Pending]) (effects w),
       Throw TypeError)).
  { unfold downloadAll. unfold bind at 1. rewrite (defined_Some _ _ _ Hq).
    change (length (p :: q) =? 0)%nat with false. cbv iota.
    unfold bind at 1. simpl for_of. unfold bind at 1. unfold bind at 1.
    unfold new_Image, cache_store.
    unfold defined, bind, read, update, ret, throw; simpl. by rewrite Hc. }
  split; [done|]. rewrite Hd. simpl. unfold dispatch. simpl.
  rewrite lookup_app_r by done. rewrite Nat.sub_diag. simpl.
  rewrite (on_load_eq _ (p :: q)) by done. simpl.
  eexists _, _. split; [done|].
  unfold handled. destruct (length_strict_equal _ _); simpl;
    by rewrite logged_this.
Qed.

Lemma downloadAll_without_cache_witness :
  downloadAll 7%nat
    (MkWorld (Instance (Num 0) (Num 0) None (Some ["a.png"; "b.png"]) None
                (Options false)) [] [])
  = (MkWorld (Instance (Num 0) (Num 0) None (Some ["a.png"; "b.png"]) None
                (Options false)) [Fetch "a.png" 7%nat Pending] [],
     Throw TypeError).
Proof.
  apply (downloadAll_without_cache
           (MkWorld (Instance (Num 0) (Num 0) None (Some ["a.png"; "b.png"]) None
                       (Options false)) [] [])
           "a.png" ["b.png"] 7%nat); reflexivity.
Defined.

Lemma tally_total l :
  tally Loaded l + tally Failed l + tally Pending l = Z.of_nat (length l).
Proof.
  induction l as [|f l IH]; simpl length; simpl tally; [lia|].
  destruct (status f); lia.
Qed.



(** X5. The callback is called only when the manager is done: in a world
    reached from an initialised instance, an operation either calls no
    callback at all, or calls exactly one, without arguments, and
    [isDone()] is true in the world it leaves. *)
Theorem callback_only_when_done d o ops w rs (x : op) w' r :
  run ops (start (initialised d o)) = Some (w, rs) ->
  exec x w = Some (w', r) ->
  calls (effects w') = calls (effects w)
  \/ exists cb,
       calls (effects w') = calls (effects w) ++ [(cb, [])]
       /\ isDone w' = (w', Normal true).
Proof.
  intros Hrun Hx.
  destruct (run_consistent _ _ _ _ _ _ (consistent_start d o) Hrun) as [Hw _].
  destruct (exec_consistent _ _ _ _ _ _ Hw Hx) as [Hw' _].
  destruct (consistent_defined _ _ _ Hw) as (q & c & Hq & Hc).
  destruct x as [path|callback| |path|img ev]; simpl in Hx.
  - rewrite (queueDownload_eq _ q) in Hx by done. injection Hx as <- <-.
    left. by rewrite logged_calls.
  - destruct (decide (q = [])) as [->|Hne].
    + rewrite downloadAll_empty in Hx by done. injection Hx as <- <-.
      right. exists callback. split; [by simpl; rewrite calls_app|].
      pose proof (consistent_empty_queue _ _ _ Hw' Hq) as Hi.
      pose proof (consistent_counters _ _ _ Hw') as Hcnt. rewrite Hi in Hcnt.
      apply counters_Some in Hcnt as [Hs He].
      rewrite (isDone_eq (emit (Call callback []) w) [] Hq).
      by rewrite Hs, He.
    + rewrite (downloadAll_issue _ q c) in Hx by done. injection Hx as <- <-.
      by left.
  - rewrite (isDone_eq _ q) in Hx by done. injection Hx as <- <-. by left.
  - destruct (getAsset_cases w c path Hc) as [[v Hg]|Hg]; rewrite Hg in Hx;
      injection Hx as <- <-; left; [done|].
    by rewrite logged_calls.
  - destruct (images w !! img) as [[p cb st]|] eqn:Hi;
      [|by unfold dispatch in Hx; rewrite Hi in Hx].
    destruct st; try by (unfold dispatch in Hx; rewrite Hi in Hx).
    rewrite (dispatch_eq _ q _ _ p cb) in Hx by done. injection Hx as <- <-.
    set (w0 := with_images (<[img := Fetch p cb (settled ev)]>) w).
    pose proof (consistent_counters _ _ _ Hw) as Hcnt.
    assert (Hc0 : counters w0
              = Some (tally Loaded (images w), tally Failed (images w))).
    { apply counters_Some. by apply counters_Some in Hcnt. }
    destruct (handled_eq ev (message_of ev p) q cb w0 _ _ Hc0)
      as (Ht & _ & Hcalls).
    destruct (handled_keeps ev (message_of ev p) q cb w0) as (Hq' & _ & _).
    rewrite Hcalls. case_decide as Hdone; [|left; by rewrite app_nil_r].
    right. exists cb. split; [done|].
    rewrite (isDone_eq _ q) by (by rewrite Hq'). rewrite Ht.
    apply counters_Some in Hcnt as [Hs He].
    f_equal. f_equal.
    destruct ev; simpl; rewrite ?Hs, ?He; simpl; apply Z.eqb_eq; lia.
Qed.

Lemma callback_only_when_done_witness :
  calls (effects (MkWorld (Instance (Num 1) (Num 0)
                             (Some (<["a.png" := 0%nat]> ∅))
                             (Some ["a.png"]) None (Options false))
                    [Fetch "a.png" 7%nat Loaded] [Call 7%nat []]))
  = calls (effects (MkWorld (Instance (Num 0) (Num 0)
                               (Some (<["a.png" := 0%nat]> ∅))
                               (Some ["a.png"]) None (Options false))
                      [Fetch "a.png" 7%nat Pending] []))
  \/ exists cb,
       calls (effects (MkWorld (Instance (Num 1) (Num 0)
                                  (Some (<["a.png" := 0%nat]> ∅))
                                  (Some ["a.png"]) None (Options false))
                         [Fetch "a.png" 7%nat Loaded] [Call 7%nat []]))
       = calls (effects (MkWorld (Instance (Num 0) (Num 0)
                                    (Some (<["a.png" := 0%nat]> ∅))
                                    (Some ["a.png"]) None (Options false))
                           [Fetch "a.png" 7%nat Pending] []))
         ++ [(cb, [])]
       /\ isDone (MkWorld (Instance (Num 1) (Num 0)
                             (Some (<["a.png" := 0%nat]> ∅))
                             (Some ["a.png"]) None (Options false))
                    [Fetch "a.png" 7%nat Loaded] [Call 7%nat []])
          = (MkWorld (Instance (Num 1) (Num 0)
                        (Some (<["a.png" := 0%nat]> ∅))
                        (Some ["a.png"]) None (Options false))
               [Fetch "a.png" 7%nat Loaded] [Call 7%nat []], Normal true).
Proof.
  apply (callback_only_when_done None (Options false)
           [QueueDownload "a.png"; DownloadAll 7%nat]
           (MkWorld (Instance (Num 0) (Num 0) (Some (<["a.png" := 0%nat]> ∅))
                       (Some ["a.png"]) None (Options false))
              [Fetch "a.png" 7%nat Pending] [])
           [Normal VUndefined; Normal VUndefined]
           (Settle 0%nat load) _ (Normal VUndefined));
    vm_compute; reflexivity.
Defined.



Lemma exec_after_done (x : op) w w' r q c s e :
  downloadQueue (this w) = Some q -> q <> [] ->
  cache (this w) = Some c ->
  counters w = Some (s, e) ->
  Z.of_nat (length q) <= s + e ->
  queued [x] = [] ->
  exec x w = Some (w', r) ->
  downloadQueue (this w') = Some q
  /\ (exists c', cache (this w') = Some c')
  /\ (exists s' e', counters w' = Some (s', e') /\ s <= s' /\ e <= e')
  /\ calls (effects w') = calls (effects w).
Proof.
  intros Hq Hne Hc Hcnt Hle Hx0 Hx.
  destruct x as [path|callback| |path|img ev]; simpl in Hx; [done|..].
  - rewrite (downloadAll_issue _ q c) in Hx by done. injection Hx as <- <-.
    split; [done|]. split; [by eexists|]. split; [|done].
    exists s, e. split; [|lia]. apply counters_Some. by apply counters_Some in Hcnt.
  - rewrite (isDone_eq _ q) in Hx by done. injection Hx as <- <-.
    split; [done|]. split; [by eexists|]. split; [|done]. exists s, e. split; [done|lia].
  - destruct (getAsset_cases w c path Hc) as [[v Hg]|Hg]; rewrite Hg in Hx;
      injection Hx as <- <-.
    + split; [done|]. split; [by eexists|]. split; [|done].
      exists s, e. split; [done|lia].
    + rewrite logged_this, logged_calls. split; [done|]. split; [by eexists|].
      split; [|done]. exists s, e. split; [|lia].
      apply counters_Some. rewrite logged_this. by apply counters_Some.
  - destruct (images w !! img) as [[p cb st]|] eqn:Hi;
      [|by unfold dispatch in Hx; rewrite Hi in Hx].
    destruct st; try by (unfold dispatch in Hx; rewrite Hi in Hx).
    rewrite (dispatch_eq _ q _ _ p cb) in Hx by done. injection Hx as <- <-.
    set (w0 := with_images (<[img := Fetch p cb (settled ev)]>) w).
    assert (Hc0 : counters w0 = Some (s, e)).
    { apply counters_Some. by apply counters_Some in Hcnt. }
    destruct (handled_eq ev (message_of ev p) q cb w0 s e Hc0) as (Ht & _ & Hcalls).
    destruct (handled_keeps ev (message_of ev p) q cb w0) as (Hq' & Hca' & _).
    split; [by rewrite Hq'|]. split; [exists c; by rewrite Hca'|]. split.
    + exists (s + occurrences load [(img, ev)]), (e + occurrences error [(img, ev)]).
      split; [|destruct ev; simpl; lia].
      apply counters_Some. apply counters_Some in Hc0 as [Hs He]. rewrite Ht.
      destruct ev; simpl; rewrite ?Hs, ?He, ?Z.add_0_r; by split.
    + rewrite Hcalls. case_decide; [lia|]. by rewrite app_nil_r.
Qed.

(** X7. The counters are never reset, so a manager that is done stays
    silent: once [successCount + errorCount] has reached the length of a
    non-empty queue, no run that queues nothing more ever calls a callback
    again, whatever it calls [downloadAll] with and however the new fetches
    settle. *)
Theorem completed_manager_never_calls_again (ops : list op) :
  forall w q c s e w' rs,
    downloadQueue (this w) = Some q -> q <> [] ->
    cache (this w) = Some c ->
    counters w = Some (s, e) ->
    Z.of_nat (length q) <= s + e ->
    queued ops = [] ->
    run ops w = Some (w', rs) ->
    calls (effects w') = calls (effects w)
    /\ downloadQueue (this w') = Some q
    /\ exists s' e', counters w' = Some (s', e') /\ s <= s' /\ e <= e'.
Proof.
  induction ops as [|x ops IH]; intros w q c s e w' rs Hq Hne Hc Hcnt Hle Hno Hrun.
  - injection Hrun as <- <-. split; [done|]. split; [done|].
    exists s, e. split; [done|lia].
  - cbn [run] in Hrun.
    destruct (exec x w) as [[w1 r]|] eqn:Hx; [|done].
    destruct (run ops w1) as [[w2 rs2]|] eqn:Hr; [|done].
    injection Hrun as <- <-.
    rewrite queued_cons in Hno. apply app_eq_nil in Hno as [Hno1 Hno2].
    destruct (exec_after_done _ _ _ _ _ _ _ _ Hq Hne Hc Hcnt Hle Hno1 Hx)
      as (Hq1 & [c1 Hc1] & (s1 & e1 & Hcnt1 & Hs1 & He1) & Hcalls1).
    destruct (IH w1 q c1 s1 e1 w2 rs2) as (Hcalls2 & Hq2 & s2 & e2 & Hcnt2 & Hs2 & He2);
      [done|done|done|done|lia|done|done|].
    split; [by rewrite Hcalls2|]. split; [done|].
    exists s2, e2. split; [done|lia].
Qed.

Lemma completed_manager_never_calls_again_witness :
  calls (effects (MkWorld (Instance (Num 2) (Num 0)
                             (Some (<["a.png" := 1%nat]> ∅))
                             (Some ["a.png"]) None (Options false))
                    [Fetch "a.png" 1%nat Loaded; Fetch "a.png" 2%nat Loaded]
                    [Call 1%nat []]))
  = [(1%nat, [])].
Proof.
  refine (proj1 (completed_manager_never_calls_again
            [DownloadAll 2%nat; Settle 1%nat load]
            (MkWorld (Instance (Num 1) (Num 0) (Some (<["a.png" := 0%nat]> ∅))
                        (Some ["a.png"]) None (Options false))
               [Fetch "a.png" 1%nat Loaded] [Call 1%nat []])
            ["a.png"] (<["a.png" := 0%nat]> ∅) 1 0
            (MkWorld (Instance (Num 2) (Num 0) (Some (<["a.png" := 1%nat]> ∅))
                        (Some ["a.png"]) None (Options false))
               [Fetch "a.png" 1%nat Loaded; Fetch "a.png" 2%nat Loaded]
               [Call 1%nat []])
            [Normal VUndefined; Normal VUndefined]
            eq_refl _ eq_refl eq_refl _ eq_refl _)).
  - discriminate.
  - simpl. lia.
  - vm_compute. reflexivity.
Defined.

(** X8. During the first cycle [isDone()] tells whether every fetch has
    settled, and the counters tell the outcomes apart: with the hypotheses
    of a first cycle, after any initial part of the run [successCount] is
    the number of [load] events delivered so far, [errorCount] the number
    of [error] events, and [isDone()] is true exactly when as many events
    have been delivered as the queue is long. *)
Theorem isDone_tracks_first_cycle w q c callback (ops : list op) n :
  downloadQueue (this w) = Some q ->
  q <> [] ->
  cache (this w) = Some c ->
  counters w = Some (0, 0) ->
  Forall (fun x => requests x = false) ops ->
  (events ops).*1 ≡ₚ seq (length (images w)) (length q) ->
  exists wk rs,
    run (DownloadAll callback :: take n ops) w = Some (wk, rs)
    /\ counters wk = Some (occurrences load (events (take n ops)),
                           occurrences error (events (take n ops)))
    /\ isDone wk
       = (wk, Normal (bool_decide (length (events (take n ops)) = length q))).
Proof.
  intros Hq Hne Hc Hcnt Hreq Hperm.
  destruct (events_prefix ops _ _ n Hreq Hperm) as (Hreq' & Hnd & Hrange & _ & _).
  destruct (cycle_progress w q c callback (take n ops) Hq Hne Hc Hcnt Hreq' Hnd Hrange)
    as (wk & rs & Hrun & _ & Hq' & _ & Hc' & _ & _).
  exists wk, rs. split; [done|]. split; [done|].
  rewrite (isDone_eq _ q Hq'). apply counters_Some in Hc' as [Hs He].
  rewrite Hs, He. simpl. f_equal. f_equal.
  pose proof (occurrences_total (events (take n ops))) as Htot.
  case_bool_decide as Hk.
  - apply Z.eqb_eq. lia.
  - apply Z.eqb_neq. lia.
Qed.

Lemma isDone_tracks_first_cycle_witness :
  exists wk rs,
    run (DownloadAll 7%nat :: take 1 [Settle 1%nat error; Settle 0%nat load])
      (MkWorld (Instance (Num 0) (Num 0) (Some ∅) (Some ["a.png"; "b.png"])
                  None (Options false)) [] [])
    = Some (wk, rs)
    /\ counters wk = Some (0, 1)
    /\ isDone wk = (wk, Normal false).
Proof.
  apply (isDone_tracks_first_cycle
           (MkWorld (Instance (Num 0) (Num 0) (Some ∅) (Some ["a.png"; "b.png"])
                       None (Options false)) [] [])
           ["a.png"; "b.png"] ∅ 7%nat [Settle 1%nat error; Settle 0%nat load] 1%nat);
    [reflexivity|discriminate|reflexivity|reflexivity|repeat constructor
    |simpl; apply perm_swap].
Defined.

Lemma plus_not_numbers w :
  counters w = None ->
  plus (successCount (this w)) (errorCount (this w)) = NaN.
Proof.
  unfold counters. by destruct (successCount (this w)), (errorCount (this w)).
Qed.

Lemma counted_not_numbers ev w :
  counters w = None -> counters (counted ev w) = None.
Proof.
  unfold counters. destruct w as [[sc ec ? ? ? ?] ? ?].
  by destruct ev, sc, ec.
Qed.

Lemma handled_not_numbers ev message q callback w :
  counters w = None ->
  handled ev message q callback w = counted ev (logged message w).
Proof.
  intros Hc. unfold handled.
  rewrite plus_not_numbers; [done|]. apply counted_not_numbers.
  unfold counters in *. by rewrite logged_this.
Qed.

Lemma exec_not_numbers (x : op) w w' r q c :
  downloadQueue (this w) = Some q -> q <> [] ->
  cache (this w) = Some c ->
  counters w = None ->
  exec x w = Some (w', r) ->
  (exists q', downloadQueue (this w') = Some q' /\ q' <> [])
  /\ (exists c', cache (this w') = Some c')
  /\ counters w' = None
  /\ calls (effects w') = calls (effects w).
Proof.
  intros Hq Hne Hc Hcnt Hx.
  destruct x as [path|callback| |path|img ev]; simpl in Hx.
  - rewrite (queueDownload_eq _ q) in Hx by done. injection Hx as <- <-.
    rewrite logged_calls. unfold counters. rewrite logged_this. simpl.
    split; [exists (q ++ [path]); split; [done|by destruct q]|].
    split; [by exists c|]. by split.
  - rewrite (downloadAll_issue _ q c) in Hx by done. injection Hx as <- <-.
    split; [by exists q|]. split; [by eexists|]. by split.
  - rewrite (isDone_eq _ q) in Hx by done. injection Hx as <- <-.
    split; [by exists q|]. split; [by exists c|]. by split.
  - destruct (getAsset_cases w c path Hc) as [[v Hg]|Hg]; rewrite Hg in Hx;
      injection Hx as <- <-.
    + split; [by exists q|]. split; [by exists c|]. by split.
    + rewrite logged_calls. unfold counters. rewrite logged_this.
      split; [by exists q|]. split; [by exists c|]. by split.
  - destruct (images w !! img) as [[p cb st]|] eqn:Hi;
      [|by unfold dispatch in Hx; rewrite Hi in Hx].
    destruct st; try by (unfold dispatch in Hx; rewrite Hi in Hx).
    rewrite (dispatch_eq _ q _ _ p cb) in Hx by done. injection Hx as <- <-.
    set (w0 := with_images (<[img := Fetch p cb (settled ev)]>) w).
    assert (Hc0 : counters w0 = None) by done.
    destruct (handled_keeps ev (message_of ev p) q cb w0) as (Hq' & Hca' & _).
    split; [exists q; by rewrite Hq'|]. split; [exists c; by rewrite Hca'|].
    rewrite (handled_not_numbers _ _ _ _ _ Hc0). split.
    + apply counted_not_numbers. unfold counters in *. by rewrite logged_this.
    + destruct ev; simpl; by rewrite logged_calls.
Qed.

(** X9. The counters are incremented and added as they are: while
    [successCount] or [errorCount] is not a number (never assigned, or NaN),
    a manager with a non-empty queue is never done -- no run calls a
    callback, the counters stay that way, and [isDone()] is false. *)
Theorem counters_not_numbers_never_complete (ops : list op) :
  forall w q c w' rs,
    downloadQueue (this w) = Some q -> q <> [] ->
    cache (this w) = Some c ->
    counters w = None ->
    run ops w = Some (w', rs) ->
    calls (effects w') = calls (effects w)
    /\ counters w' = None
    /\ isDone w' = (w', Normal false).
Proof.
  induction ops as [|x ops IH]; intros w q c w' rs Hq Hne Hc Hcnt Hrun.
  - injection Hrun as <- <-. split; [done|]. split; [done|].
    by rewrite (isDone_eq _ q Hq), plus_not_numbers.
  - cbn [run] in Hrun.
    destruct (exec x w) as [[w1 r]|] eqn:Hx; [|done].
    destruct (run ops w1) as [[w2 rs2]|] eqn:Hr; [|done].
    injection Hrun as <- <-.
    destruct (exec_not_numbers _ _ _ _ _ _ Hq Hne Hc Hcnt Hx)
      as ((q1 & Hq1 & Hne1) & [c1 Hc1] & Hcnt1 & Hcalls1).
    destruct (IH w1 q1 c1 w2 rs2 Hq1 Hne1 Hc1 Hcnt1 Hr) as (Hcalls2 & Hcnt2 & Hd2).
    split; [by rewrite Hcalls2|]. by split.
Qed.

Lemma counters_not_numbers_never_complete_witness :
  calls (effects (MkWorld (Instance NaN Unset (Some (<["a.png" := 0%nat]> ∅))
                             (Some ["a.png"]) None (Options false))
                    [Fetch "a.png" 7%nat Loaded] []))
  = []
  /\ isDone (MkWorld (Instance NaN Unset (Some (<["a.png" := 0%nat]> ∅))
                        (Some ["a.png"]) None (Options false))
               [Fetch "a.png" 7%nat Loaded] [])
     = (MkWorld (Instance NaN Unset (Some (<["a.png" := 0%nat]> ∅))
                   (Some ["a.png"]) None (Options false))
          [Fetch "a.png" 7%nat Loaded] [], Normal false).
Proof.
  destruct (counters_not_numbers_never_complete
              [DownloadAll 7%nat; Settle 0%nat load]
              (MkWorld (Instance Unset Unset (Some ∅) (Some ["a.png"]) None
                          (Options false)) [] [])
              ["a.png"] ∅
              (MkWorld (Instance NaN Unset (Some (<["a.png" := 0%nat]> ∅))
                          (Some ["a.png"]) None (Options false))
                 [Fetch "a.png" 7%nat Loaded] [])
              [Normal VUndefined; Normal VUndefined])
    as (H1 & _ & H2); [reflexivity|discriminate|reflexivity|reflexivity| |].
  - vm_compute. reflexivity.
  - split; [exact H1|exact H2].
Defined.




Lemma logs_app (l1 l2 : list effect) : logs (l1 ++ l2) = logs l1 ++ logs l2.
Proof.
  induction l1 as [|[m v|f args] l1 IH]; simpl; [done| |done].
  by rewrite IH.
Qed.

Lemma logged_logs message w :
  logs (effects (logged message w))
  = logs (effects w) ++ (if truthy (debugging (this w)) then [message] else []).
Proof.
  unfold logged. destruct (truthy _); [|by rewrite app_nil_r].
  simpl. by rewrite logs_app.
Qed.

(** X11. What [debug] writes, on a manager whose cache still inherits
    from [Object.prototype]: with [this.debugging] truthy every
    [queueDownload], every delivered event and every [getAsset] that finds
    nothing -- neither an image stored under the path nor a member
    inherited under that name -- writes exactly one line to the console,
    with the path in it; [downloadAll], [isDone] and a [getAsset] that
    finds something write nothing; and with [this.debugging] not truthy
    nothing is written. *)
Theorem operation_trace (x : op) w w' r q (c : gmap string Image) :
  downloadQueue (this w) = Some q ->
  cache (this w) = Some c ->
  c !! "__proto__" = None ->
  exec x w = Some (w', r) ->
  logs (effects w')
  = logs (effects w)
    ++ (if truthy (debugging (this w)) then trace_of x w else []).
Proof.
  intros Hq Hc _ Hx.
  assert (Hnil : logs (effects w)
            = logs (effects w)
              ++ (if truthy (debugging (this w)) then [] else []))
    by (destruct (truthy _); by rewrite app_nil_r).
  destruct x as [path|callback| |path|img ev]; simpl in Hx.
  - rewrite (queueDownload_eq _ q) in Hx by done. injection Hx as <- <-.
    by rewrite logged_logs.
  - destruct (decide (q = [])) as [->|Hne].
    + rewrite downloadAll_empty in Hx by done. injection Hx as <- <-.
      simpl. rewrite logs_app. simpl. rewrite app_nil_r. exact Hnil.
    + rewrite (downloadAll_issue _ q c) in Hx by done. injection Hx as <- <-.
      exact Hnil.
  - rewrite (isDone_eq _ q) in Hx by done. injection Hx as <- <-. exact Hnil.
  - rewrite (getAsset_eq _ c) in Hx by done. simpl. rewrite Hc.
    destruct (c !! path); [|destruct (inherited path)]; injection Hx as <- <-;
      [exact Hnil|exact Hnil|].
    by rewrite logged_logs.
  - destruct (images w !! img) as [[p cb st]|] eqn:Hi;
      [|by unfold dispatch in Hx; rewrite Hi in Hx].
    destruct st; try by (unfold dispatch in Hx; rewrite Hi in Hx).
    rewrite (dispatch_eq _ q _ _ p cb) in Hx by done. injection Hx as <- <-.
    simpl. rewrite Hi. simpl.
    set (w0 := with_images (<[img := Fetch p cb (settled ev)]>) w).
    assert (H1 : logs (effects (counted ev (logged (message_of ev p) w0)))
              = logs (effects w)
                ++ (if truthy (debugging (this w)) then [message_of ev p] else [])).
    { destruct ev; simpl; by rewrite logged_logs. }
    unfold handled. destruct (length_strict_equal _ _); [|done].
    simpl. rewrite logs_app, H1. simpl. by rewrite app_nil_r.
Qed.

Lemma operation_trace_witness :
  logs (effects (MkWorld (Instance (Num 0) (Num 0) (Some (<["a.png" := 0%nat]> ∅))
                            (Some ["a.png"]) (Some true) (Options false))
                   [Fetch "a.png" 7%nat Pending]
                   [Log "Asset b.png not found in cache" None]))
  = ["Asset b.png not found in cache"]
  /\ logs (effects (MkWorld (Instance (Num 0) (Num 0)
                               (Some (<["a.png" := 0%nat]> ∅))
                               (Some ["a.png"]) (Some true) (Options false))
                      [Fetch "a.png" 7%nat Pending] []))
     = [].
Proof.
  split.
  - refine (operation_trace (GetAsset "b.png")
              (MkWorld (Instance (Num 0) (Num 0) (Some (<["a.png" := 0%nat]> ∅))
                          (Some ["a.png"]) (Some true) (Options false))
                 [Fetch "a.png" 7%nat Pending] [])
              (MkWorld (Instance (Num 0) (Num 0) (Some (<["a.png" := 0%nat]> ∅))
                          (Some ["a.png"]) (Some true) (Options false))
                 [Fetch "a.png" 7%nat Pending]
                 [Log "Asset b.png not found in cache" None])
              (Normal VNull) ["a.png"] (<["a.png" := 0%nat]> ∅)
              eq_refl eq_refl _ _).
    + vm_compute. reflexivity.
    + vm_compute. reflexivity.
  - refine (operation_trace (GetAsset "toString")
              (MkWorld (Instance (Num 0) (Num 0) (Some (<["a.png" := 0%nat]> ∅))
                          (Some ["a.png"]) (Some true) (Options false))
                 [Fetch "a.png" 7%nat Pending] [])
              (MkWorld (Instance (Num 0) (Num 0) (Some (<["a.png" := 0%nat]> ∅))
                          (Some ["a.png"]) (Some true) (Options false))
                 [Fetch "a.png" 7%nat Pending] [])
              (Normal (VInherited "toString")) ["a.png"] (<["a.png" := 0%nat]> ∅)
              eq_refl eq_refl _ _).
    + vm_compute. reflexivity.
    + vm_compute. reflexivity.
Defined.

Lemma tally_pending_lookup (l : list fetch) i p cb :
  l !! i = Some (Fetch p cb Pending) -> 0 < tally Pending l.
Proof.
  revert i. induction l as [|f l IH]; intros i Hi; [done|].
  destruct i as [|i]; simpl in *.
  - injection Hi as ->. simpl. pose proof (tally_nonneg Pending l). lia.
  - specialize (IH i Hi). destruct (status f); lia.
Qed.

Lemma exec_after_issue d o (x : op) w w' r :
  consistent d o w ->
  (length (images w) <= queue_length w)%nat ->
  quiet_or_finished w ->
  downloads [x] = O ->
  exec x w = Some (w', r) ->
  (length (images w') <= queue_length w')%nat /\ quiet_or_finished w'.
Proof.
  intros Hw Hlen Hqf Hd Hx.
  destruct (exec_issued _ _ _ _ _ _ Hw Hx) as (Hql & Hsame & _).
  split; [rewrite (Hsame Hd); lia|].
  pose proof (consistent_counters _ _ _ Hw) as Hcnt.
  destruct (consistent_defined _ _ _ Hw) as (q & c & Hq & Hc).
  destruct x as [path|callback| |path|img ev]; simpl in Hx; [|done|..].
  - rewrite (queueDownload_eq _ q) in Hx by done. injection Hx as <- <-.
    unfold quiet_or_finished. by rewrite logged_calls, logged_images.
  - rewrite (isDone_eq _ q) in Hx by done. by injection Hx as <- <-.
  - destruct (getAsset_cases w c path Hc) as [[v Hg]|Hg]; rewrite Hg in Hx;
      injection Hx as <- <-; [done|].
    unfold quiet_or_finished. by rewrite logged_calls, logged_images.
  - destruct (images w !! img) as [[p cb st]|] eqn:Hi;
      [|by unfold dispatch in Hx; rewrite Hi in Hx].
    destruct st; try by (unfold dispatch in Hx; rewrite Hi in Hx).
    rewrite (dispatch_eq _ q _ _ p cb) in Hx by done. injection Hx as <- <-.
    pose proof (tally_pending_lookup _ _ _ _ Hi) as Hpos.
    destruct Hqf as [Hnone|[_ Hzero]]; [|lia].
    set (w0 := with_images (<[img := Fetch p cb (settled ev)]>) w).
    assert (Hc0 : counters w0
              = Some (tally Loaded (images w), tally Failed (images w))).
    { apply counters_Some. by apply counters_Some in Hcnt. }
    destruct (handled_eq ev (message_of ev p) q cb w0 _ _ Hc0)
      as (_ & Himg & Hcalls).
    unfold quiet_or_finished. rewrite Hcalls, Himg. simpl. rewrite Hnone. simpl.
    case_decide as Hdone; [|by left]. right. split; [by exists cb|].
    pose proof (tally_total (<[img := Fetch p cb (settled ev)]> (images w))) as Htot.
    rewrite length_insert in Htot.
    rewrite !(tally_settle _ _ _ _ _ _ Hi) in Htot by done.
    pose proof (tally_nonneg Pending (<[img := Fetch p cb (settled ev)]> (images w))).
    unfold queue_length in Hlen. rewrite Hq in Hlen.
    destruct ev; simpl settled in *; repeat case_decide; try done; lia.
Qed.

Lemma run_after_issue d o (ops : list op) w w' rs :
  consistent d o w ->
  (length (images w) <= queue_length w)%nat ->
  quiet_or_finished w ->
  downloads ops = O ->
  run ops w = Some (w', rs) ->
  quiet_or_finished w'.
Proof.
  revert w w' rs. induction ops as [|x ops IH]; intros w w' rs Hw Hlen Hqf Hd Hrun.
  - by injection Hrun as <- <-.
  - cbn [run] in Hrun.
    destruct (exec x w) as [[w1 r]|] eqn:Hx; [|done].
    destruct (run ops w1) as [[w2 rs2]|] eqn:Hr; [|done].
    injection Hrun as <- <-. rewrite downloads_cons in Hd.
    destruct (exec_consistent _ _ _ _ _ _ Hw Hx) as [Hw1 _].
    assert (Hd1 : downloads [x] = O) by lia.
    assert (Hd2 : downloads ops = O) by lia.
    destruct (exec_after_issue _ _ _ _ _ _ Hw Hlen Hqf Hd1 Hx) as [Hlen1 Hqf1].
    apply (IH _ _ _ Hw1 Hlen1 Hqf1 Hd2 Hr).
Qed.

Lemma run_before_issue d o (ops : list op) w w' rs :
  consistent d o w ->
  images w = [] ->
  calls (effects w) = [] ->
  (downloads ops <= 1)%nat ->
  run ops w = Some (w', rs) ->
  quiet_or_finished w'.
Proof.
  revert w w' rs. induction ops as [|x ops IH]; intros w w' rs Hw Hnil Hnone Hd Hrun.
  - injection Hrun as <- <-. by left.
  - cbn [run] in Hrun.
    destruct (exec x w) as [[w1 r]|] eqn:Hx; [|done].
    destruct (run ops w1) as [[w2 rs2]|] eqn:Hr; [|done].
    injection Hrun as <- <-. rewrite downloads_cons in Hd.
    destruct (exec_consistent _ _ _ _ _ _ Hw Hx) as [Hw1 _].
    destruct (consistent_defined _ _ _ Hw) as (q & c & Hq & Hc).
    destruct (exec_issued _ _ _ _ _ _ Hw Hx) as (_ & _ & Hfirst & _).
    specialize (Hfirst Hnil).
    destruct x as [path|callback| |path|img ev]; simpl in Hx.
    + rewrite (queueDownload_eq _ q) in Hx by done. injection Hx as <- <-.
      apply (IH _ _ rs2 Hw1); [by rewrite logged_images|by rewrite logged_calls
                             |simpl in Hd; lia|done].
    + simpl in Hd. apply (run_after_issue d o ops w1 w2 rs2 Hw1 Hfirst); [|lia|done].
      destruct (decide (q = [])) as [->|Hne].
      * rewrite downloadAll_empty in Hx by done. injection Hx as <- <-.
        right. simpl. rewrite calls_app, Hnone, Hnil. split; [by exists callback|done].
      * rewrite (downloadAll_issue _ q c) in Hx by done. injection Hx as <- <-.
        by left.
    + rewrite (isDone_eq _ q) in Hx by done. injection Hx as <- <-.
      apply (IH _ _ rs2 Hw1); [done|done|simpl in Hd; lia|done].
    + destruct (getAsset_cases w c path Hc) as [[v Hg]|Hg]; rewrite Hg in Hx;
        injection Hx as <- <-.
      * apply (IH _ _ rs2 Hw1); [done|done|simpl in Hd; lia|done].
      * apply (IH _ _ rs2 Hw1); [by rewrite logged_images|by rewrite logged_calls
                               |simpl in Hd; lia|done].
    + unfold dispatch in Hx. by rewrite Hnil in Hx.
Qed.

(** X13. With a single [downloadAll] the callback is called at most once,
    whatever else happens: in any run from an initialised instance that
    calls [downloadAll] at most once -- with [queueDownload] calls before,
    between and after the events -- at most one callback call is made, it
    has no arguments, and once it is made no image is pending any more. *)
Theorem callback_called_at_most_once d o ops w rs :
  run ops (start (initialised d o)) = Some (w, rs) ->
  (downloads ops <= 1)%nat ->
  (length (calls (effects w)) <= 1)%nat
  /\ (calls (effects w) <> [] ->
      (exists cb, calls (effects w) = [(cb, [])])
      /\ tally Pending (images w) = 0).
Proof.
  intros Hrun Hd.
  destruct (run_before_issue _ _ _ _ _ _ (consistent_start d o) eq_refl eq_refl Hd Hrun)
    as [Hnone|[[cb Hone] Hzero]].
  - rewrite Hnone. split; [simpl; lia|done].
  - rewrite Hone. split; [simpl; lia|]. intros _. split; [by exists cb|done].
Qed.

Lemma callback_called_at_most_once_witness :
  (length (calls (effects
     (MkWorld (Instance (Num 1) (Num 0) (Some (<["a.png" := 0%nat]> ∅))
                 (Some ["a.png"; "b.png"]) None (Options false))
        [Fetch "a.png" 7%nat Loaded] []))) <= 1)%nat.
Proof.
  refine (proj1 (callback_called_at_most_once None (Options false)
            [QueueDownload "a.png"; DownloadAll 7%nat; QueueDownload "b.png";
             Settle 0%nat load]
            (MkWorld (Instance (Num 1) (Num 0) (Some (<["a.png" := 0%nat]> ∅))
                        (Some ["a.png"; "b.png"]) None (Options false))
               [Fetch "a.png" 7%nat Loaded] [])
            (replicate 4 (Normal VUndefined)) _ _)).
  - vm_compute. reflexivity.
  - simpl. lia.
Defined.
